(** * collectCitiBikeNycData.py: download and unpack monthly trip archives

    A shallow embedding of [scripts/collectCitiBikeNycData.py] and the
    properties of its date enumeration, URL construction, download and
    extraction steps.

    Dates are records of three integers, as [datetime.date] has them.
    The filesystem is a finite map from paths to byte strings together
    with a set of directories; paths are the strings the script builds,
    and there are no links, permissions or limits of space and name
    length.  The network and the archive decoder are functions of the
    environment, extraction follows [ZipFile._extract_member] of
    CPython 3.11, and every stateful function of the script is a state
    transformer over a [world] that may end in a Python exception. *)

From Stdlib Require Import ZArith Lia String Ascii List Bool.
From stdpp Require Import base gmap strings list list_numbers.
From Equations Require Import Equations.
From Equations.Prop Require Import Logic.

Local Open Scope Z_scope.

(** ** Exceptions *)

(** The exception classes the script can meet.  [RequestException]
    stands for the whole [requests.exceptions] family, [OSError] for the
    [OSError] family ([FileNotFoundError], [IsADirectoryError], ...), and
    [OtherError] for any other subclass of [Exception]. *)
Inductive exn : Type :=
| ValueError
| OverflowError
| OSError
| BadZipFile
| RequestException
| OtherError.

Inductive res (A : Type) : Type :=
| Ok (a : A)
| Raise (e : exn).
Arguments Ok {A} a.
Arguments Raise {A} e.

(** ** datetime.date *)

Module Date.

Record date : Type := Build { year : Z; month : Z; day : Z }.

Definition MINYEAR : Z := 1.
Definition MAXYEAR : Z := 9999.

Definition is_leap (y : Z) : bool :=
  (y mod 4 =? 0) && (negb (y mod 100 =? 0) || (y mod 400 =? 0)).

Definition days_in_month (y m : Z) : Z :=
  if m =? 2 then (if is_leap y then 29 else 28)
  else if (m =? 4) || (m =? 6) || (m =? 9) || (m =? 11) then 30
  else 31.

Definition valid_ymd (y m d : Z) : bool :=
  (MINYEAR <=? y) && (y <=? MAXYEAR) && (1 <=? m) && (m <=? 12)
  && (1 <=? d) && (d <=? days_in_month y m).

(** Every [datetime.date] object satisfies the constructor's check. *)
Definition valid (d : date) : bool := valid_ymd (year d) (month d) (day d).

(** [date(y, m, d)]: raises [ValueError] outside the supported range. *)
Definition new (y m d : Z) : res date :=
  if valid_ymd y m d then Ok (Build y m d) else Raise ValueError.

(** [a <= b]: dates compare as the tuples [(year, month, day)]. *)
Definition leb (a b : date) : bool :=
  if year a <? year b then true
  else if year b <? year a then false
  else if month a <? month b then true
  else if month b <? month a then false
  else day a <=? day b.

(** [a < b]. *)
Definition ltb (a b : date) : bool :=
  if year a <? year b then true
  else if year b <? year a then false
  else if month a <? month b then true
  else if month b <? month a then false
  else day a <? day b.

(** [d.replace(day=1)]. *)
Definition replace_day1 (d : date) : date := Build (year d) (month d) 1.

(** [d - timedelta(days=1)]: the previous calendar day; [OverflowError]
    before 0001-01-01. *)
Definition minus_one_day (d : date) : res date :=
  if 1 <? day d then Ok (Build (year d) (month d) (day d - 1))
  else if 1 <? month d
       then Ok (Build (year d) (month d - 1) (days_in_month (year d) (month d - 1)))
  else if MINYEAR <? year d then Ok (Build (year d - 1) 12 31)
  else Raise OverflowError.

(** Months counted from year 0: the chronological position of the
    calendar month a date lies in. *)
Definition month_ordinal (d : date) : Z := year d * 12 + (month d - 1).

End Date.

Import Date.

(** ** strftime *)

(** Decimal digit [n] (0..9) as a character. *)
Definition digit (n : Z) : ascii := ascii_of_nat (48 + Z.to_nat n).

(** [n] written with exactly [width] decimal digits, most significant
    first (leading zeros as needed). *)
Fixpoint zfill (width : nat) (n : Z) : string :=
  match width with
  | O => EmptyString
  | S w => String (digit ((n / 10 ^ Z.of_nat w) mod 10)) (zfill w n)
  end.

(** Number of decimal digits of a year in [1, 9999]. *)
Definition ndigits (y : Z) : nat :=
  if y <? 10 then 1%nat else if y <? 100 then 2%nat
  else if y <? 1000 then 3%nat else 4%nat.

(** The platform the script runs on.  [strftime] is the C library's:
    [%Y] is padded to four digits on some platforms and not on others
    (years below 1000 then print with fewer digits). *)
Class Platform : Type := {
  zero_pad_year : bool
}.

(** The outcome a generator ends with once it is resumed after its last
    [yield]: exhaustion, or an exception raised in its body. *)
Inductive gen_end : Type :=
| StopIteration
| GenRaise (e : exn).

(** First day of the month after [current]: the two branches at the end
    of the generator's loop body. *)
Definition next_month (current : date) : res date :=
  if month current =? 12 then Date.new (year current + 1) 1 1
  else Date.new (year current) (month current + 1) 1.

Section Tokens.
Context `{Platform}.

(** [%Y]. *)
Definition strftime_Y (y : Z) : string :=
  if zero_pad_year then zfill 4 y else zfill (ndigits y) y.

(** [%m]. *)
Definition strftime_m (m : Z) : string := zfill 2 m.

(** [d.strftime("%Y%m")]. *)
Definition strftime_Ym (d : date) : string :=
  String.append (strftime_Y (year d)) (strftime_m (month d)).

(** The token of the calendar month with ordinal [i] (see
    [Date.month_ordinal]): month [i mod 12 + 1] of year [i / 12]. *)
Definition token_of_ordinal (i : Z) : string :=
  strftime_Ym (Date.Build (i / 12) (i mod 12 + 1) 1).

(** [generate_date_strings]: the loop of the generator, started with
    [current_date = current].  The result is the sequence of yielded
    tokens together with the way the generator ends when it is resumed
    after the last of them.  The loop terminates because each round
    moves to the next month and [date] refuses years after 9999, so the
    month ordinal of [current] grows and stays below 120012. *)
Equations? gds_loop (current end_date : date) : list string * gen_end
  by wf (Z.to_nat (120012 - month_ordinal current)) lt :=
  gds_loop current end_date with inspect (Date.leb current end_date) := {
    | exist _ false _ => ([], StopIteration)
    | exist _ true _ with inspect (next_month current) := {
        | exist _ (Ok next) Hnext =>
            let rest := gds_loop next end_date in
            (strftime_Ym current :: fst rest, snd rest)
        | exist _ (Raise e) _ => ([strftime_Ym current], GenRaise e) } }.
Proof.
  clear gds_loop.
  revert Hnext. unfold next_month, Date.new, month_ordinal.
  destruct (month current =? 12) eqn:E;
    match goal with |- context [valid_ymd ?y ?m ?d] =>
      destruct (valid_ymd y m d) eqn:V end; intros [= <-]; simpl;
    unfold valid_ymd, MINYEAR, MAXYEAR in V; lia.
Qed.

Definition generate_date_strings (start_date end_date : date)
  : list string * gen_end :=
  gds_loop start_date end_date.

End Tokens.

(** [get_most_recent_date], with [date.today()] as its argument: the day
    before the first day of the current month. *)
Definition get_most_recent_date (today : date) : res date :=
  let first_day_of_month := replace_day1 today in
  minus_one_day first_day_of_month.

(** ** URLs *)

Definition DATA_SOURCE_URL : string := "https://s3.amazonaws.com/tripdata/".

(** The conditional expression [date_str <= '202404' and '.csv' or '']:
    ['.csv'] is a non-empty string, so the expression is ['.csv'] when
    the comparison holds and [''] when it does not. *)
Definition legacy_suffix (date_str : string) : string :=
  if String.leb date_str "202404" then ".csv" else "".

(** The URL built in the backfill loop of [main]. *)
Definition backfill_url (date_str : string) : string :=
  DATA_SOURCE_URL +:+ date_str +:+ "-citibike-tripdata"
    +:+ legacy_suffix date_str +:+ ".zip".

(** The URL built in the default branch of [main]. *)
Definition default_url (current_date : string) : string :=
  DATA_SOURCE_URL +:+ current_date +:+ "-citibike-tripdata.zip".

(** The number of places at which [sub] occurs in [s]; for a [sub] that
    cannot overlap itself, such as ['.csv'], this is [s.count(sub)]. *)
Fixpoint occurrences (sub s : string) : nat :=
  match s with
  | EmptyString => if String.prefix sub s then 1 else 0
  | String _ s' => (if String.prefix sub s then 1 else 0) + occurrences sub s'
  end.

(** A decimal digit. *)
Definition is_digit (c : ascii) : bool :=
  (48 <=? nat_of_ascii c)%nat && (nat_of_ascii c <=? 57)%nat.

Fixpoint all_digits (s : string) : bool :=
  match s with
  | EmptyString => true
  | String c s' => is_digit c && all_digits s'
  end.

(** Truth value of a [str]: non-empty. *)
Definition str_truthy (s : string) : bool :=
  match s with EmptyString => false | _ => true end.

(** ** os.path (POSIX) *)

Definition is_sep (c : ascii) : bool := Ascii.eqb c "/".

Definition startswith_sep (s : string) : bool :=
  match s with
  | String c _ => is_sep c
  | EmptyString => false
  end.

Fixpoint endswith_sep (s : string) : bool :=
  match s with
  | EmptyString => false
  | String c EmptyString => is_sep c
  | String _ s' => endswith_sep s'
  end.

Fixpoint has_sep (s : string) : bool :=
  match s with
  | EmptyString => false
  | String c s' => is_sep c || has_sep s'
  end.

(** [os.path.join(a, b)]. *)
Definition os_path_join (a b : string) : string :=
  if startswith_sep b then b
  else if negb (str_truthy a) || endswith_sep a then a +:+ b
  else a +:+ "/" +:+ b.

(** [os.path.basename(p)]: what follows the last ['/'] of [p]. *)
Fixpoint basename (p : string) : string :=
  match p with
  | EmptyString => ""
  | String c p' =>
      if has_sep p' then basename p'
      else if is_sep c then p' else p
  end.

(** ** The world the script acts on *)

Abbreviation bytes := (list Byte.byte).

(** What [requests.get(url, stream=True)] hands back: the status code,
    the chunks [iter_content] yields, and the exception the stream ends
    with when the connection breaks before the body is complete. *)
Record response : Type := Response {
  status_code : Z;
  body : list bytes;
  body_error : option exn
}.

Inductive http_outcome : Type :=
| GetRaises (e : exn)
| GetResponse (r : response).

(** How reading a member of an archive fails: [ZipFile.open] raises (a
    bad local header, an unsupported compression method; the target file
    has not been opened yet), or the copy raises after [written] has
    reached the target file (a bad checksum, a damaged stream). *)
Inductive failure : Type :=
| FailsOnOpen (e : exn)
| FailsOnCopy (written : bytes) (e : exn).

Inductive extraction : Type :=
| Extracted (data : bytes)
| Fails (f : failure).

(** An archive member as [ZipFile._extract_member] sees it: its name
    and what reading its data gives. *)
Record member : Type := Member {
  m_name : string;
  m_outcome : extraction
}.

(** [ZipInfo.is_dir()]: [self.filename[-1] == '/'], which raises
    [IndexError] for an empty name. *)
Definition is_dir (m : member) : res bool :=
  match m_name m with
  | EmptyString => Raise OtherError
  | _ => Ok (endswith_sep (m_name m))
  end.

(** A directory entry: a member whose name ends in ['/']. *)
Definition m_is_dir (m : member) : bool := endswith_sep (m_name m).

(** The exception extraction of [m] ends with on account of the member
    itself: its name is empty, or its stored data is damaged; a
    directory entry has no data to read. *)
Definition m_error (m : member) : option exn :=
  match is_dir m with
  | Raise e => Some e
  | Ok true => None
  | Ok false =>
      match m_outcome m with
      | Extracted _ => None
      | Fails (FailsOnOpen e) => Some e
      | Fails (FailsOnCopy _ e) => Some e
      end
  end.

(** The bytes extraction of [m] writes to the target file. *)
Definition m_written (m : member) : bytes :=
  match m_outcome m with
  | Extracted data => data
  | Fails (FailsOnOpen _) => []
  | Fails (FailsOnCopy written _) => written
  end.

(** [name.split('/')]. *)
Fixpoint split_sep (s : string) : list string :=
  match s with
  | EmptyString => [EmptyString]
  | String c s' =>
      if is_sep c then EmptyString :: split_sep s'
      else match split_sep s' with
           | x :: l => String c x :: l
           | [] => [String c EmptyString]
           end
  end.

(** ['/'.join(parts)]. *)
Fixpoint join_sep (parts : list string) : string :=
  match parts with
  | [] => EmptyString
  | [x] => x
  | x :: l => x +:+ "/" +:+ join_sep l
  end.

(** The components of a member name that [ZipFile._extract_member]
    keeps: empty components (so a leading ['/'] too), ['.'] and ['..']
    are dropped. *)
Definition arc_parts (name : string) : list string :=
  List.filter (fun x => negb (String.eqb x "" || String.eqb x "."
                              || String.eqb x ".."))
              (split_sep name).

(** The path [parts] name below [dir]. *)
Definition path_below (dir : string) (parts : list string) : string :=
  match parts with
  | [] => dir
  | _ => os_path_join dir (join_sep parts)
  end.

(** The lists [l] starts with, itself apart, shortest first. *)
Fixpoint proper_prefixes {A : Type} (l : list A) : list (list A) :=
  match l with
  | [] => []
  | x :: l' => [] :: List.map (cons x) (proper_prefixes l')
  end.

(** [os.path.normpath(os.path.join(dir, arcname))] for the member called
    [name]: the kept components below [dir], with [dir] spelled as the
    caller spells it. *)
Definition member_path (dir name : string) : string :=
  path_below dir (arc_parts name).

(** The directories on the way from [dir] to the target of the member
    called [name], [dir] first; the last one is
    [os.path.dirname(targetpath)]. *)
Definition member_parents (dir name : string) : list string :=
  List.map (path_below dir) (proper_prefixes (arc_parts name)).

(** What lies outside the script: the C library, the location of the
    script file, URL parsing, the network, the decoder of a zip
    container ([None]: not a zip file; otherwise the members in the
    order [extractall] goes through them, which is the order of
    [namelist()] with every name standing for the last entry of that
    name), and what becomes of a member that is read after extraction
    has written over the archive file itself: [None] when it still reads
    as before (its data was in the reader's buffer already), or the way
    reading it fails now. *)
Class Env : Type := {
  env_platform :: Platform;
  script_dir : string;
  urlparse_path : string -> res string;
  requests_get : string -> http_outcome;
  zip_members : bytes -> option (list member);
  after_overwrite : member -> option failure
}.

Inductive log_record : Type :=
| InfoDownloading (url output_path : string)
| InfoDownloaded (filename : string)
| ErrorDownloading (e : exn)
| ErrorUnexpectedDownload (e : exn)
| InfoExtracting (zip_path data_dir : string)
| InfoExtracted (zip_path : string)
| InfoDeleted (zip_path : string)
| ErrorInvalidZip (e : exn)
| ErrorExtracting (e : exn)
| InfoCompleted
| ErrorFailedUnzip
| ErrorFailedDownload
| InfoStartingBackfill (start_date end_date : date)
| InfoProcessing (date_str : string).

(** Regular files with their contents, directories, and the lines the
    logger has emitted (oldest first).  A world that stands for a file
    system lists a directory for every path that has something below
    it; the functions below look at the listed paths only. *)
Record world : Type := World {
  files : gmap string bytes;
  dirs : gset string;
  log : list log_record
}.

(** A computation that reads and changes the world and returns a value
    or raises; the changes made before an exception stay. *)
Definition M (A : Type) : Type := world -> res A * world.

#[export] Instance M_ret : MRet M := fun A a w => (Ok a, w).
#[export] Instance M_bind : MBind M := fun A B f m w =>
  match m w with
  | (Ok a, w') => f a w'
  | (Raise e, w') => (Raise e, w')
  end.

Definition raise {A : Type} (e : exn) : M A := fun w => (Raise e, w).

Definition lift {A : Type} (r : res A) : M A := fun w => (r, w).

(** [try: body except Exception as e: handler e]. *)
Definition try_except {A : Type} (body : M A) (handler : exn -> M A) : M A :=
  fun w =>
    match body w with
    | (Ok a, w') => (Ok a, w')
    | (Raise e, w') => handler e w'
    end.

(** [for x in l: body x]. *)
Fixpoint for_each {A : Type} (l : list A) (body : A -> M unit) : M unit :=
  match l with
  | [] => mret tt
  | x :: l' => body x;; for_each l' body
  end.

Definition logger (r : log_record) : M unit :=
  fun w => (Ok tt, World (files w) (dirs w) (log w ++ [r])).

(** [Path(p).mkdir(parents=True, exist_ok=True)]: [FileExistsError] when
    [p] is a regular file. *)
Definition mkdir_p (p : string) : M unit :=
  fun w =>
    match files w !! p with
    | Some _ => (Raise OSError, w)
    | None => (Ok tt, World (files w) ({[p]} ∪ dirs w) (log w))
    end.

(** [open(p, 'wb')]: creates or truncates the file; [IsADirectoryError]
    when [p] is a directory. *)
Definition open_wb (p : string) : M unit :=
  fun w =>
    if decide (p ∈ dirs w) then (Raise OSError, w)
    else (Ok tt, World (<[p := []]> (files w)) (dirs w) (log w)).

(** [f.write(chunk)] on the file opened at [p]. *)
Definition f_write (p : string) (chunk : bytes) : M unit :=
  fun w =>
    (Ok tt, World (alter (fun old => (old ++ chunk)%list) p (files w))
               (dirs w) (log w)).

(** [os.mkdir(p)] unless [p] is a directory already: [FileExistsError]
    when [p] is a regular file. *)
Definition make_dir (p : string) : M unit :=
  fun w =>
    if decide (p ∈ dirs w) then (Ok tt, w)
    else match files w !! p with
         | Some _ => (Raise OSError, w)
         | None => (Ok tt, World (files w) ({[p]} ∪ dirs w) (log w))
         end.

(** [os.path.exists(p)]. *)
Definition path_exists (p : string) : M bool :=
  fun w =>
    (Ok (bool_decide (p ∈ dirs w) || bool_decide (is_Some (files w !! p))), w).

(** A path is created below [parent]: [NotADirectoryError] when [parent]
    is a regular file. *)
Definition below_directory (parent : option string) : M unit :=
  fun w =>
    match parent with
    | Some d => match files w !! d with
                | Some _ => (Raise OSError, w)
                | None => (Ok tt, w)
                end
    | None => (Ok tt, w)
    end.

(** [os.remove(p)]. *)
Definition os_remove (p : string) : M unit :=
  fun w =>
    match files w !! p with
    | Some _ => (Ok tt, World (delete p (files w)) (dirs w) (log w))
    | None => (Raise OSError, w)
    end.

(** [response.raise_for_status()]: [HTTPError] for 4xx and 5xx. *)
Definition raise_for_status (r : response) : M unit :=
  if (400 <=? status_code r) && (status_code r <? 600)
  then raise RequestException else mret tt.

(** [for chunk in response.iter_content(...): body chunk]. *)
Definition for_iter_content (r : response) (body_fn : bytes -> M unit) : M unit :=
  for_each (body r) body_fn;;
  match body_error r with
  | Some e => raise e
  | None => mret tt
  end.

(** Truth value of a byte string: non-empty. *)
Definition nonempty {A : Type} (l : list A) : bool :=
  match l with [] => false | _ => true end.

(** [for x in gen: body x] over a generator run to its end. *)
Definition for_generator (g : list string * gen_end) (body_fn : string -> M unit)
  : M unit :=
  for_each g.1 body_fn;;
  match g.2 with
  | StopIteration => mret tt
  | GenRaise e => raise e
  end.

(** Command-line arguments as [parse_args] returns them. *)
Record args : Type := Args {
  args_backfill : bool;
  args_url : option string
}.

(** The value of [args.url] when it is truthy. *)
Definition truthy_url (o : option string) : option string :=
  match o with
  | Some u => if str_truthy u then Some u else None
  | None => None
  end.

Section Script.
Context `{Env}.

Definition DATA_DIR : string :=
  os_path_join (os_path_join script_dir "..") "raw_data".

(** [zipfile.ZipFile(zip_path, 'r')]: the members of the archive. *)
Definition zip_open (zip_path : string) : M (list member) :=
  fun w =>
    match files w !! zip_path with
    | None => (Raise OSError, w)
    | Some content =>
        match zip_members content with
        | None => (Raise BadZipFile, w)
        | Some ms => (Ok ms, w)
        end
    end.

(** What reading [m] gives, given whether the archive file has been
    written over. *)
Definition outcome_when (overwritten : bool) (m : member) : extraction :=
  if overwritten then
    match after_overwrite m with
    | Some f => Fails f
    | None => m_outcome m
    end
  else m_outcome m.

(** [os.makedirs(upperdirs)] when [upperdirs], the last of [parents],
    does not exist: the missing directories are made from the top, and a
    regular file on the way raises. *)
Definition make_parents (parents : list string) : M unit :=
  match last parents with
  | Some upperdirs =>
      present ← path_exists upperdirs;
      if (present : bool) then mret tt else for_each parents make_dir
  | None => mret tt
  end.

(** [if not os.path.isdir(targetpath): os.mkdir(targetpath)]. *)
Definition make_dir_entry (targetpath : string) (parent : option string)
  : M unit :=
  fun w =>
    if decide (targetpath ∈ dirs w) then (Ok tt, w)
    else (below_directory parent;; make_dir targetpath) w.

(** [shutil.copyfileobj(source, target)] for a member that reads as
    [o]; a member that cannot be read at all once the archive file is
    written over fails before anything is copied. *)
Definition copy_member (targetpath : string) (o : extraction) : M unit :=
  match o with
  | Extracted data => f_write targetpath data
  | Fails (FailsOnCopy written e) => f_write targetpath written;; raise e
  | Fails (FailsOnOpen e) => raise e
  end.

(** [ZipFile._extract_member] for the archive at [zip_path], below
    [dir]: the parent directories are made; a directory entry is made
    unless it is there; for a file entry the member is opened, then the
    target file, and the data is copied.  [overwritten] tells whether an
    earlier member has been written over the archive file; the result
    tells the same for the members that follow.  A member whose target
    is the archive file truncates it when the target is opened, so its
    own data is copied from an archive that is written over. *)
Definition extract_member (dir zip_path : string) (overwritten : bool)
    (m : member) : M bool :=
  let targetpath := member_path dir (m_name m) in
  let parents := member_parents dir (m_name m) in
  make_parents parents;;
  directory ← lift (is_dir m);
  if (directory : bool) then
    make_dir_entry targetpath (last parents);;
    mret overwritten
  else
    match outcome_when overwritten m with
    | Fails (FailsOnOpen e) => raise e
    | _ =>
        below_directory (last parents);;
        open_wb targetpath;;
        copy_member targetpath
          (outcome_when (overwritten || String.eqb targetpath zip_path) m);;
        mret (overwritten || String.eqb targetpath zip_path)
    end.

(** The members in archive order. *)
Fixpoint extract_members (dir zip_path : string) (overwritten : bool)
    (ms : list member) : M unit :=
  match ms with
  | [] => mret tt
  | m :: ms' =>
      overwritten' ← extract_member dir zip_path overwritten m;
      extract_members dir zip_path overwritten' ms'
  end.

(** [zip_ref.extractall(dir)] on the archive opened from [zip_path]. *)
Definition extractall (dir zip_path : string) (ms : list member) : M unit :=
  extract_members dir zip_path false ms.

Definition download_file (url : string) : M (option string) :=
  try_except
    (mkdir_p DATA_DIR;;
     path ← lift (urlparse_path url);
     let filename := basename path in
     if negb (str_truthy filename) then raise ValueError
     else
       let output_path := os_path_join DATA_DIR filename in
       logger (InfoDownloading url output_path);;
       r ← (fun w => match requests_get url with
                     | GetRaises e => (Raise e, w)
                     | GetResponse r => (Ok r, w)
                     end);
       raise_for_status r;;
       (open_wb output_path;;
        for_iter_content r (fun chunk =>
          if nonempty chunk then f_write output_path chunk else mret tt));;
       logger (InfoDownloaded filename);;
       mret (Some output_path))
    (fun e =>
       match e with
       | RequestException => logger (ErrorDownloading e);; mret None
       | _ => logger (ErrorUnexpectedDownload e);; mret None
       end).

Definition unzip_file (zip_path : string) : M bool :=
  try_except
    (mkdir_p DATA_DIR;;
     logger (InfoExtracting zip_path DATA_DIR);;
     (ms ← zip_open zip_path;
      extractall DATA_DIR zip_path ms);;
     logger (InfoExtracted zip_path);;
     os_remove zip_path;;
     logger (InfoDeleted zip_path);;
     mret true)
    (fun e =>
       match e with
       | BadZipFile => logger (ErrorInvalidZip e);; mret false
       | _ => logger (ErrorExtracting e);; mret false
       end).

Definition download_and_unzip (url : string) : M unit :=
  zip_path ← download_file url;
  match zip_path with
  | Some p =>
      if str_truthy p then
        (unzipped ← unzip_file p;
         if (unzipped : bool) then logger InfoCompleted
         else logger ErrorFailedUnzip)
      else logger ErrorFailedDownload
  | None => logger ErrorFailedDownload
  end.

(** The body of the backfill loop of [main]. *)
Definition backfill_step (date_str : string) : M unit :=
  let url := backfill_url date_str in
  logger (InfoProcessing date_str);;
  download_and_unzip url.

(** [main], with the parsed arguments and [date.today()] as arguments.
    [if args.url] holds for a URL that is given and not empty. *)
Definition main (a : args) (today : date) : M unit :=
  match truthy_url (args_url a) with
  | Some u => download_and_unzip u
  | None =>
      if args_backfill a then
        start_date ← lift (Date.new 2024 1 1);
        end_date ← lift (get_most_recent_date today);
        logger (InfoStartingBackfill start_date end_date);;
        for_generator (generate_date_strings start_date end_date) backfill_step
      else
        d ← lift (get_most_recent_date today);
        let current_date := strftime_Ym d in
        let url := default_url current_date in
        download_and_unzip url
  end.

(** *** Vocabulary of the statements *)

(** The path [ZipFile._extract_member] writes member [m] to. *)
Definition target (m : member) : string := member_path DATA_DIR (m_name m).

(** The regular files once the members [ms] have all been written;
    directory entries add none. *)
Definition extract_files (ms : list member) (fs : gmap string bytes)
  : gmap string bytes :=
  foldl (fun fs m => if m_is_dir m then fs else <[target m := m_written m]> fs)
        fs ms.

(** The directories extraction of [m] needs: those on the way to its
    target and, for a directory entry, the target. *)
Definition needed_dirs (m : member) : list string :=
  (member_parents DATA_DIR (m_name m)
   ++ if m_is_dir m then [target m] else [])%list.

(** The directories once the directories [parents], none of which is a
    regular file, have been made as [make_parents] makes them. *)
Definition parents_made (ds : gset string) (parents : list string)
  : gset string :=
  match last parents with
  | Some upperdirs =>
      if decide (upperdirs ∈ ds) then ds else list_to_set parents ∪ ds
  | None => ds
  end.

(** The directories once [m] has been extracted into a world with the
    directories [ds] in which no directory [m] needs is a regular
    file. *)
Definition dirs_made (ds : gset string) (m : member) : gset string :=
  let ds1 := parents_made ds (member_parents DATA_DIR (m_name m)) in
  if m_is_dir m then {[target m]} ∪ ds1 else ds1.

Definition extract_dirs (ms : list member) (ds : gset string) : gset string :=
  foldl dirs_made ds ms.

(** The directories [m] needs last are among [ds]: the directory of its
    target and, for a directory entry, the target. *)
Definition settled (ds : gset string) (m : member) : Prop :=
  (forall u, last (member_parents DATA_DIR (m_name m)) = Some u -> u ∈ ds)
  /\ (m_is_dir m = true -> target m ∈ ds).

(** Nothing stands in the way of extracting [ms] from the archive at
    [zip_path] in world [w]: every member is sound; no directory that is
    needed is a regular file, the archive, or the target of a file
    entry; and no file entry is written onto a directory, onto the
    output directory or onto the archive. *)
Definition extractable (zip_path : string) (ms : list member) (w : world)
  : Prop :=
  Forall (fun m =>
    m_error m = None
    /\ Forall (fun d =>
         files w !! d = None /\ d <> zip_path
         /\ Forall (fun m' => m_is_dir m' = false -> target m' <> d) ms)
         (needed_dirs m)
    /\ (m_is_dir m = false ->
        (target m ∉ dirs w) /\ target m <> DATA_DIR /\ target m <> zip_path))
    ms.

(** The log line the handlers of [unzip_file] emit for exception [e]. *)
Definition extraction_error_record (e : exn) : log_record :=
  match e with
  | BadZipFile => ErrorInvalidZip e
  | _ => ErrorExtracting e
  end.

(** The log line the handlers of [download_file] emit for exception [e]. *)
Definition download_error_record (e : exn) : log_record :=
  match e with
  | RequestException => ErrorDownloading e
  | _ => ErrorUnexpectedDownload e
  end.

(** The three ways a download fails before the local file is opened: the
    request raises, the status is an error status, or the path of the
    URL has an empty last component. *)
Inductive download_fails (url : string) : Prop :=
| NetworkError (e : exn) :
    requests_get url = GetRaises e -> download_fails url
| ErrorStatus (r : response) :
    requests_get url = GetResponse r ->
    400 <= status_code r < 600 -> download_fails url
| EmptyFilename (path : string) :
    urlparse_path url = Ok path -> basename path = EmptyString ->
    download_fails url.

(** The connection breaks while the body of the answer is received. *)
Definition stream_breaks (url : string) : Prop :=
  exists r e, requests_get url = GetResponse r /\ body_error r = Some e.

(** A download that fails, so that [download_file] returns [None],
    creates no file.  The script does not guarantee this. *)
Definition failed_download_creates_no_file (url : string) (w : world) : Prop :=
  (download_file url w).1 = Ok None ->
  files (download_file url w).2 = files w.

(** The default mode of [main] appends the legacy suffix to a token that
    is not after the cutoff.  The script does not do this. *)
Definition default_mode_appends_legacy_suffix (today : date) (w : world)
  : Prop :=
  forall d, get_most_recent_date today = Ok d ->
    String.leb (strftime_Ym d) "202404" = true ->
    main (Args false None) today w
    = download_and_unzip
        (DATA_SOURCE_URL +:+ strftime_Ym d +:+ "-citibike-tripdata"
           +:+ ".csv" +:+ ".zip") w.

(** A failed extraction leaves the archive where it was and nothing of
    its contents in the output directory.  The script does not
    guarantee this. *)
Definition failed_extraction_leaves_no_entries (zip_path : string) (w : world)
  : Prop :=
  (unzip_file zip_path w).1 = Ok false ->
  is_Some (files (unzip_file zip_path w).2 !! zip_path)
  /\ forall p, p <> zip_path ->
       files (unzip_file zip_path w).2 !! p = files w !! p.

End Script.

(** The [InfoProcessing] lines of a log: the periods the backfill loop
    has started on, in order. *)
Definition processed (l : list log_record) : list string :=
  omap (fun r => match r with InfoProcessing s => Some s | _ => None end) l.

(** A computation that adds no [InfoProcessing] line to the log. *)
Definition quiet {A : Type} (m : M A) : Prop :=
  forall w, processed (log (m w).2) = processed (log w).

(** A computation that returns, whatever the world. *)
Definition safe {A : Type} (m : M A) : Prop :=
  forall w, exists a, (m w).1 = Ok a.

(** ** A concrete environment, for examples *)

Module Demo.

(** The rest of [s] after its first ["//"]. *)
Fixpoint after_slashes (s : string) : option string :=
  match s with
  | String c1 s' =>
      match s' with
      | String c2 r => if is_sep c1 && is_sep c2 then Some r else after_slashes s'
      | EmptyString => None
      end
  | EmptyString => None
  end.

(** [s] from its first ['/'] on. *)
Fixpoint from_sep (s : string) : string :=
  match s with
  | String c s' => if is_sep c then s else from_sep s'
  | EmptyString => EmptyString
  end.

(** [s] up to its first ['?'] or ['#']. *)
Fixpoint before_query (s : string) : string :=
  match s with
  | String c s' =>
      if Ascii.eqb c "?" || Ascii.eqb c "#" then EmptyString
      else String c (before_query s')
  | EmptyString => EmptyString
  end.

(** The path of a URL of the form [scheme://host/path?query#fragment]. *)
Definition url_path (url : string) : res string :=
  match after_slashes url with
  | Some r => Ok (before_query (from_sep r))
  | None => Ok (before_query url)
  end.

Definition pk : bytes := [Byte.x50; Byte.x4b].

(** A network with a few files: two of one name on different paths, an
    archive with a directory, a stream that breaks after its first
    chunk, and a missing file. *)
Definition network (url : string) : http_outcome :=
  if String.eqb url "https://example.org/a/data.zip"
  then GetResponse (Response 200 [pk; [Byte.x01]] None)
  else if String.eqb url "https://example.org/b/data.zip"
  then GetResponse (Response 200 [pk; []; [Byte.x02]] None)
  else if String.eqb url "https://example.org/c/year.zip"
  then GetResponse (Response 200 [pk; [Byte.x03]] None)
  else if String.eqb url "https://example.org/broken.zip"
  then GetResponse (Response 200 [pk] (Some RequestException))
  else if String.eqb url "https://example.org/missing.zip"
  then GetResponse (Response 404 [] None)
  else GetRaises RequestException.

(** A sound archive with a directory entry, a member below it, and a
    member whose name tries to leave the output directory. *)
Definition year_members : list member :=
  [Member "2024/" (Extracted []);
   Member "2024/jan.csv" (Extracted [Byte.x31]);
   Member "/../feb.csv" (Extracted [Byte.x32])].

(** A decoder that knows four archives: one with a single sound member,
    one whose second member has a bad checksum (found at the end of the
    copy, before anything is written), [year_members], and one that
    holds a member named like the archive. *)
Definition decode (b : bytes) : option (list member) :=
  match b with
  | [Byte.x50; Byte.x4b; Byte.x01] =>
      Some [Member "trips.csv" (Extracted [Byte.x31])]
  | [Byte.x50; Byte.x4b; Byte.x02] =>
      Some [Member "a.csv" (Extracted [Byte.x61]);
            Member "b.csv" (Fails (FailsOnCopy [] BadZipFile))]
  | [Byte.x50; Byte.x4b; Byte.x03] => Some year_members
  | [Byte.x50; Byte.x4b; Byte.x04] =>
      Some [Member "data.zip" (Extracted [Byte.x7a]);
            Member "late.csv" (Extracted [Byte.x6c])]
  | _ => None
  end.

(** Once the archive file is written over, the reader meets the end of
    the file where it expects the data of the next member. *)
Definition truncated (m : member) : option failure :=
  Some (FailsOnCopy [] OtherError).

Definition padded : Platform := {| zero_pad_year := true |}.
Definition unpadded : Platform := {| zero_pad_year := false |}.

Definition env : Env := {|
  env_platform := padded;
  script_dir := "/app/scripts";
  urlparse_path := url_path;
  requests_get := network;
  zip_members := decode;
  after_overwrite := truncated
|}.

Definition empty_world : world := World ∅ ∅ [].

(** A network that answers every request with status 200 and a page of
    text, and the environment with this network. *)
Definition network_with_error_page (url : string) : http_outcome :=
  GetResponse (Response 200 [[Byte.x3c; Byte.x68]; [Byte.x3e]] None).

Definition env_with_error_page : Env := {|
  env_platform := padded;
  script_dir := "/app/scripts";
  urlparse_path := url_path;
  requests_get := network_with_error_page;
  zip_members := decode;
  after_overwrite := truncated
|}.

(** A world that holds the damaged archive in the output directory. *)
Definition world_with_damaged_archive : world :=
  World {[ "/app/scripts/../raw_data/data.zip" := [Byte.x50; Byte.x4b; Byte.x02] ]}
        ∅ [].

End Demo.

(** * Properties *)

(** ** Decimal rendering *)

Lemma digit_compare x y :
  0 <= x < 10 -> 0 <= y < 10 ->
  Ascii.compare (digit x) (digit y) = Z.compare x y.
Proof.
  intros Hx Hy.
  assert (Ex : x = 0 \/ x = 1 \/ x = 2 \/ x = 3 \/ x = 4 \/ x = 5 \/ x = 6
               \/ x = 7 \/ x = 8 \/ x = 9) by lia.
  assert (Ey : y = 0 \/ y = 1 \/ y = 2 \/ y = 3 \/ y = 4 \/ y = 5 \/ y = 6
               \/ y = 7 \/ y = 8 \/ y = 9) by lia.
  clear Hx Hy.
  repeat (destruct Ex as [-> | Ex]); try subst x;
    repeat (destruct Ey as [-> | Ey]); try subst y; reflexivity.
Qed.

Lemma zfill_length w n : String.length (zfill w n) = w.
Proof. induction w as [|w IH]; simpl; congruence. Qed.

Lemma mod_pow10_succ (w : nat) (a : Z) :
  a mod 10 ^ Z.of_nat (S w)
  = (a / 10 ^ Z.of_nat w) mod 10 * 10 ^ Z.of_nat w + a mod 10 ^ Z.of_nat w.
Proof.
  rewrite Nat2Z.inj_succ, Z.pow_succ_r by lia.
  rewrite (Z.mul_comm 10), Z.rem_mul_r by lia. lia.
Qed.

(** Fixed-width decimal strings compare as the numbers they denote. *)
Lemma zfill_compare w a b :
  String.compare (zfill w a) (zfill w b)
  = Z.compare (a mod 10 ^ Z.of_nat w) (b mod 10 ^ Z.of_nat w).
Proof.
  induction w as [|w IH].
  - simpl. rewrite !Z.mod_1_r. reflexivity.
  - cbn [zfill String.compare].
    set (p := 10 ^ Z.of_nat w) in *.
    assert (Hp : 0 < p) by (apply Z.pow_pos_nonneg; lia).
    rewrite digit_compare by (apply Z.mod_pos_bound; lia).
    rewrite !mod_pow10_succ. fold p.
    pose proof (Z.mod_pos_bound (a / p) 10 ltac:(lia)) as Ha.
    pose proof (Z.mod_pos_bound (b / p) 10 ltac:(lia)) as Hb.
    pose proof (Z.mod_pos_bound a p Hp) as Ha'.
    pose proof (Z.mod_pos_bound b p Hp) as Hb'.
    destruct (Z.compare_spec ((a / p) mod 10) ((b / p) mod 10)) as [E|E|E].
    + rewrite IH, E.
      destruct (Z.compare_spec (a mod p) (b mod p));
        symmetry; [apply Z.compare_eq_iff | apply Z.compare_lt_iff
                  | apply Z.compare_gt_iff]; lia.
    + symmetry. apply Z.compare_lt_iff. nia.
    + symmetry. apply Z.compare_gt_iff. nia.
Qed.

Lemma zfill_compare_small w a b :
  0 <= a < 10 ^ Z.of_nat w -> 0 <= b < 10 ^ Z.of_nat w ->
  String.compare (zfill w a) (zfill w b) = Z.compare a b.
Proof. intros. rewrite zfill_compare, !Z.mod_small; auto. Qed.

Lemma string_compare_refl s : String.compare s s = Eq.
Proof.
  induction s as [|c s IH]; simpl; [reflexivity|].
  unfold Ascii.compare. rewrite N.compare_refl. exact IH.
Qed.

Lemma zfill_inj w a b :
  0 <= a < 10 ^ Z.of_nat w -> 0 <= b < 10 ^ Z.of_nat w ->
  zfill w a = zfill w b -> a = b.
Proof.
  intros Ha Hb E. apply Z.compare_eq_iff.
  rewrite <- (zfill_compare_small w) by assumption.
  rewrite E. apply string_compare_refl.
Qed.

(** Strings with prefixes of one length compare prefix first. *)
Lemma compare_append s1 s2 t1 t2 :
  String.length s1 = String.length s2 ->
  String.compare (s1 +:+ t1) (s2 +:+ t2)
  = match String.compare s1 s2 with
    | Eq => String.compare t1 t2
    | c => c
    end.
Proof.
  revert s2. induction s1 as [|c1 s1 IH]; intros [|c2 s2] L;
    simpl in L; try discriminate; [reflexivity|].
  simpl. destruct (Ascii.compare c1 c2); auto.
Qed.

Lemma append_inj_length s1 s2 t1 t2 :
  String.length s1 = String.length s2 ->
  s1 +:+ t1 = s2 +:+ t2 -> s1 = s2 /\ t1 = t2.
Proof.
  revert s2. induction s1 as [|c1 s1 IH]; intros [|c2 s2] L E;
    simpl in *; try discriminate; [auto|].
  injection E as -> E. destruct (IH s2) as [-> ->]; auto.
Qed.

Lemma append_length s t :
  String.length (s +:+ t) = (String.length s + String.length t)%nat.
Proof. induction s; simpl; auto. Qed.

(** ** Dates *)

Lemma valid_bounds d :
  Date.valid d = true ->
  1 <= year d <= 9999 /\ 1 <= month d <= 12 /\ 1 <= day d.
Proof. unfold Date.valid, valid_ymd, MINYEAR, MAXYEAR. lia. Qed.

Lemma valid_replace_day1 d :
  Date.valid d = true -> Date.valid (replace_day1 d) = true.
Proof.
  unfold Date.valid, valid_ymd, replace_day1, days_in_month, MINYEAR, MAXYEAR.
  simpl. intros V.
  destruct (month d =? 2), (is_leap (year d)),
    ((month d =? 4) || (month d =? 6) || (month d =? 9) || (month d =? 11));
    lia.
Qed.

(** For dates with a month in 1..12, [<=] is the order of the month
    ordinals, with the days deciding within one month. *)
Lemma leb_ordinal a b :
  1 <= month a <= 12 -> 1 <= month b <= 12 ->
  Date.leb a b
  = if month_ordinal a <? month_ordinal b then true
    else if month_ordinal b <? month_ordinal a then false
    else day a <=? day b.
Proof.
  unfold Date.leb, month_ordinal. intros Ha Hb.
  repeat match goal with |- context [?x <? ?y] =>
    destruct (Z.ltb_spec x y) end; try reflexivity; try lia.
Qed.

Lemma Date_ltb_leb a b : Date.ltb b a = negb (Date.leb a b).
Proof.
  unfold Date.ltb, Date.leb.
  repeat match goal with |- context [?x <? ?y] =>
    destruct (Z.ltb_spec x y) end; try reflexivity; try lia;
    destruct (Z.leb_spec (day a) (day b)); simpl; lia.
Qed.

Lemma next_month_ordinal current next :
  next_month current = Ok next ->
  month_ordinal next = month_ordinal current + 1 /\
  Date.valid next = true /\ day next = 1.
Proof.
  unfold next_month, Date.new, month_ordinal.
  destruct (Z.eqb_spec (month current) 12) as [E|E];
    match goal with |- context [valid_ymd ?y ?m ?d] =>
      destruct (valid_ymd y m d) eqn:V end; intros [= <-]; simpl;
    unfold Date.valid; simpl; rewrite V;
    unfold valid_ymd, MINYEAR, MAXYEAR in V; lia.
Qed.

(** The next month exists except after December 9999. *)
Lemma next_month_spec current :
  Date.valid current = true ->
  if month_ordinal current =? 119999
  then next_month current = Raise ValueError
  else exists next, next_month current = Ok next.
Proof.
  intros V. apply valid_bounds in V.
  unfold next_month, Date.new, month_ordinal, valid_ymd, days_in_month,
    MINYEAR, MAXYEAR.
  destruct (Z.eqb_spec (year current * 12 + (month current - 1)) 119999) as [E|E].
  - assert (month current = 12) as -> by lia.
    assert (year current = 9999) as -> by lia. reflexivity.
  - destruct (Z.eqb_spec (month current) 12) as [Em|Em].
    + assert (year current + 1 <= 9999) by lia.
      replace ((1 <=? year current + 1) && (year current + 1 <=? 9999)
               && (1 <=? 1) && (1 <=? 12) && (1 <=? 1)
               && (1 <=? (if 1 =? 2 then if is_leap (year current + 1) then 29 else 28
                          else if (1 =? 4) || (1 =? 6) || (1 =? 9) || (1 =? 11)
                               then 30 else 31))) with true
        by (simpl; lia).
      eauto.
    + match goal with |- context [if ?c then Ok _ else _] =>
        replace c with true; [eauto|] end.
      symmetry.
      destruct (month current + 1 =? 2), (is_leap (year current)),
        ((month current + 1 =? 4) || (month current + 1 =? 6)
         || (month current + 1 =? 9) || (month current + 1 =? 11)); lia.
Qed.

Lemma days_in_month_range y m : 28 <= days_in_month y m <= 31.
Proof.
  unfold days_in_month.
  destruct (m =? 2), (is_leap y),
    ((m =? 4) || (m =? 6) || (m =? 9) || (m =? 11)); lia.
Qed.

(** Except in January of year 1, the most recent date is the last day
    of the month before the current one. *)
Lemma get_most_recent_date_spec today :
  Date.valid today = true -> (year today <> 1 \/ month today <> 1) ->
  exists d, get_most_recent_date today = Ok d
    /\ Date.valid d = true
    /\ month_ordinal d = month_ordinal today - 1
    /\ day d = days_in_month (year d) (month d).
Proof.
  intros V Hne. apply valid_bounds in V.
  unfold get_most_recent_date, minus_one_day, replace_day1. cbn [year month day].
  change (1 <? 1) with false. cbv iota.
  destruct (Z.ltb_spec 1 (month today)) as [Hm|Hm].
  - eexists. split; [reflexivity|].
    pose proof (days_in_month_range (year today) (month today - 1)).
    unfold Date.valid, valid_ymd, month_ordinal, MINYEAR, MAXYEAR.
    cbn [year month day]. repeat split; lia.
  - unfold MINYEAR. destruct (Z.ltb_spec 1 (year today)) as [Hy|Hy]; [|lia].
    eexists. split; [reflexivity|].
    unfold Date.valid, valid_ymd, month_ordinal, MINYEAR, MAXYEAR.
    cbn [year month day]. change (days_in_month (year today - 1) 12) with 31.
    repeat split; lia.
Qed.

(** ** Tokens *)

Section TokenFacts.
Context `{Platform}.

Lemma strftime_Ym_ordinal d :
  1 <= month d <= 12 -> strftime_Ym d = token_of_ordinal (month_ordinal d).
Proof.
  intros Hm. unfold token_of_ordinal, strftime_Ym, month_ordinal. simpl.
  replace ((year d * 12 + (month d - 1)) / 12) with (year d)
    by (apply (Z.div_unique _ _ _ (month d - 1)); lia).
  replace ((year d * 12 + (month d - 1)) mod 12 + 1) with (month d)
    by (rewrite (Z.add_comm (year d * 12)), Z.mod_add, Z.mod_small; lia).
  reflexivity.
Qed.

(** December is followed by January of the next year. *)
Lemma token_of_ordinal_rollover y :
  token_of_ordinal (y * 12 + 11) = strftime_Ym (Date.Build y 12 1)
  /\ token_of_ordinal (y * 12 + 11 + 1) = strftime_Ym (Date.Build (y + 1) 1 1).
Proof.
  split.
  - rewrite (strftime_Ym_ordinal (Date.Build y 12 1)) by (simpl; lia).
    reflexivity.
  - rewrite (strftime_Ym_ordinal (Date.Build (y + 1) 1 1)) by (simpl; lia).
    unfold month_ordinal. simpl. f_equal. lia.
Qed.

Lemma strftime_Y_four_digits y :
  1000 <= y <= 9999 -> strftime_Y y = zfill 4 y.
Proof.
  intros Hy. unfold strftime_Y, ndigits.
  destruct zero_pad_year; [reflexivity|].
  destruct (Z.ltb_spec y 10); [lia|].
  destruct (Z.ltb_spec y 100); [lia|].
  destruct (Z.ltb_spec y 1000); [lia|]. reflexivity.
Qed.

Lemma ndigits_bound y :
  0 <= y <= 9999 -> 0 <= y < 10 ^ Z.of_nat (ndigits y).
Proof.
  intros Hy. unfold ndigits.
  destruct (Z.ltb_spec y 10); [simpl; lia|].
  destruct (Z.ltb_spec y 100); [simpl; lia|].
  destruct (Z.ltb_spec y 1000); simpl; lia.
Qed.

(** Distinct (year, month) pairs have distinct tokens, whether or not
    the platform pads the year. *)
Lemma strftime_Ym_inj y1 m1 d1 y2 m2 d2 :
  0 <= y1 <= 9999 -> 0 <= y2 <= 9999 -> 1 <= m1 <= 12 -> 1 <= m2 <= 12 ->
  strftime_Ym (Date.Build y1 m1 d1) = strftime_Ym (Date.Build y2 m2 d2) ->
  y1 = y2 /\ m1 = m2.
Proof.
  intros Hy1 Hy2 Hm1 Hm2. unfold strftime_Ym, strftime_Y, strftime_m.
  cbn [year month]. intros E.
  assert (L : String.length (if zero_pad_year then zfill 4 y1
                             else zfill (ndigits y1) y1)
            = String.length (if zero_pad_year then zfill 4 y2
                             else zfill (ndigits y2) y2)).
  { apply (f_equal String.length) in E. rewrite !append_length in E.
    rewrite !(zfill_length 2) in E. lia. }
  destruct (append_inj_length _ _ _ _ L E) as [Ey Em].
  split.
  - destruct zero_pad_year.
    + apply (zfill_inj 4); [lia .. | exact Ey].
    + rewrite !zfill_length in L. rewrite L in Ey.
      apply (zfill_inj (ndigits y2)); auto using ndigits_bound.
      rewrite <- L. auto using ndigits_bound.
  - apply (zfill_inj 2); [lia .. | exact Em].
Qed.

Lemma token_of_ordinal_inj i j :
  0 <= i <= 119999 -> 0 <= j <= 119999 ->
  token_of_ordinal i = token_of_ordinal j -> i = j.
Proof.
  intros Hi Hj E. unfold token_of_ordinal in E.
  apply strftime_Ym_inj in E; Z.div_mod_to_equations; lia.
Qed.

(** ** The generator *)

Lemma gds_loop_eq current end_date :
  gds_loop current end_date
  = if Date.leb current end_date then
      match next_month current with
      | Ok next =>
          let rest := gds_loop next end_date in
          (strftime_Ym current :: rest.1, rest.2)
      | Raise e => ([strftime_Ym current], GenRaise e)
      end
    else ([], StopIteration).
Proof.
  funelim (gds_loop current end_date).
  - rewrite e. reflexivity.
  - rewrite e, Hnext. reflexivity.
  - rewrite e2, e0. reflexivity.
Qed.

(** From a valid [current] not after a valid [end_date], the loop yields
    the tokens of all months from that of [current] to that of
    [end_date], and ends normally unless [end_date] lies in the last
    month a [date] can hold. *)
Lemma gds_loop_enumerates (n : nat) : forall current end_date,
  Date.valid current = true -> Date.valid end_date = true ->
  Date.leb current end_date = true ->
  month_ordinal end_date - month_ordinal current = Z.of_nat n ->
  gds_loop current end_date
  = (token_of_ordinal <$> seqZ (month_ordinal current) (Z.of_nat n + 1),
     if month_ordinal end_date =? 119999
     then GenRaise ValueError else StopIteration).
Proof.
  induction n as [|n IH]; intros current end_date Vc Ve Hle Hn.
  - rewrite gds_loop_eq, Hle.
    pose proof (valid_bounds _ Vc) as Bc. pose proof (valid_bounds _ Ve) as Be.
    pose proof (next_month_spec current Vc) as Hnm.
    replace (month_ordinal end_date) with (month_ordinal current) by lia.
    rewrite seqZ_cons, seqZ_nil by lia. simpl.
    rewrite <- strftime_Ym_ordinal by lia.
    destruct (month_ordinal current =? 119999).
    + rewrite Hnm. reflexivity.
    + destruct Hnm as [next Hnext]. rewrite Hnext.
      destruct (next_month_ordinal _ _ Hnext) as (Ho & Vn & Dn).
      pose proof (valid_bounds _ Vn) as Bn.
      rewrite gds_loop_eq, leb_ordinal by lia.
      destruct (Z.ltb_spec (month_ordinal next) (month_ordinal end_date)); [lia|].
      destruct (Z.ltb_spec (month_ordinal end_date) (month_ordinal next)); [|lia].
      reflexivity.
  - rewrite gds_loop_eq, Hle.
    pose proof (valid_bounds _ Vc) as Bc. pose proof (valid_bounds _ Ve) as Be.
    pose proof (next_month_spec current Vc) as Hnm.
    assert (month_ordinal end_date <= 119999) by (unfold month_ordinal; lia).
    destruct (Z.eqb_spec (month_ordinal current) 119999) as [E|E]; [lia|].
    destruct Hnm as [next Hnext]. rewrite Hnext.
    destruct (next_month_ordinal _ _ Hnext) as (Ho & Vn & Dn).
    pose proof (valid_bounds _ Vn) as Bn.
    assert (Hle' : Date.leb next end_date = true).
    { rewrite leb_ordinal by lia.
      destruct (Z.ltb_spec (month_ordinal next) (month_ordinal end_date));
        [reflexivity|].
      destruct (Z.ltb_spec (month_ordinal end_date) (month_ordinal next)); lia. }
    rewrite (IH next end_date Vn Ve Hle') by lia.
    cbn [fst snd]. simpl.
    rewrite (seqZ_cons (month_ordinal current)) by lia. simpl.
    rewrite <- strftime_Ym_ordinal by lia.
    repeat f_equal; lia.
Qed.

Lemma leb_ordinal_le a b :
  Date.valid a = true -> Date.valid b = true ->
  Date.leb a b = true -> month_ordinal a <= month_ordinal b.
Proof.
  intros Va Vb. apply valid_bounds in Va, Vb.
  rewrite leb_ordinal by lia.
  destruct (Z.ltb_spec (month_ordinal a) (month_ordinal b)); [lia|].
  destruct (Z.ltb_spec (month_ordinal b) (month_ordinal a)); [discriminate|lia].
Qed.

Lemma ordinal_range d :
  Date.valid d = true -> 12 <= month_ordinal d <= 119999.
Proof. intros V. apply valid_bounds in V. unfold month_ordinal. lia. Qed.

Lemma generate_date_strings_spec start_date end_date :
  Date.valid start_date = true -> Date.valid end_date = true ->
  Date.leb start_date end_date = true ->
  generate_date_strings start_date end_date
  = (token_of_ordinal <$> seqZ (month_ordinal start_date)
       (month_ordinal end_date - month_ordinal start_date + 1),
     if month_ordinal end_date =? 119999
     then GenRaise ValueError else StopIteration).
Proof.
  intros Vs Ve Hle. pose proof (leb_ordinal_le _ _ Vs Ve Hle) as Ho.
  unfold generate_date_strings.
  rewrite (gds_loop_enumerates
             (Z.to_nat (month_ordinal end_date - month_ordinal start_date)))
    by (auto; lia).
  repeat f_equal. lia.
Qed.

(** Tokens with four-digit years compare as their months do. *)
Lemma token_compare i j :
  12000 <= i <= 119999 -> 12000 <= j <= 119999 ->
  String.compare (token_of_ordinal i) (token_of_ordinal j) = Z.compare i j.
Proof.
  intros Hi Hj. unfold token_of_ordinal, strftime_Ym, strftime_m.
  cbn [year month].
  rewrite !strftime_Y_four_digits by (Z.div_mod_to_equations; lia).
  rewrite compare_append by (rewrite !zfill_length; reflexivity).
  rewrite !zfill_compare_small by (Z.div_mod_to_equations; lia).
  destruct (Z.compare_spec (i / 12) (j / 12)) as [E|E|E].
  - destruct (Z.compare_spec (i mod 12 + 1) (j mod 12 + 1)); symmetry;
      [apply Z.compare_eq_iff | apply Z.compare_lt_iff | apply Z.compare_gt_iff];
      Z.div_mod_to_equations; lia.
  - symmetry. apply Z.compare_lt_iff. Z.div_mod_to_equations; lia.
  - symmetry. apply Z.compare_gt_iff. Z.div_mod_to_equations; lia.
Qed.

Lemma token_202404 : token_of_ordinal 24291 = "202404".
Proof.
  unfold token_of_ordinal, strftime_Ym, strftime_Y.
  destruct zero_pad_year; reflexivity.
Qed.

Lemma token_length_four_digit_year i :
  12000 <= i <= 119999 -> String.length (token_of_ordinal i) = 6%nat.
Proof.
  intros Hi. unfold token_of_ordinal, strftime_Ym, strftime_m. cbn [year month].
  rewrite strftime_Y_four_digits by (Z.div_mod_to_equations; lia).
  rewrite append_length, !zfill_length. reflexivity.
Qed.

(** C1: for valid dates with [start_date <= end_date], the generator
    yields the tokens of the calendar months from that of [start_date]
    to that of [end_date]: one token per month, inclusive, in
    chronological order without gap or repetition (the k-th token is
    that of the k-th month after the start, so December is followed by
    January of the next year), and the result is the same as for the
    first days of the two months.  The generator is then exhausted,
    except that after the token of December 9999 the construction of
    the following month raises [ValueError]. *)
Theorem generate_date_strings_enumerates_months start_date end_date :
  Date.valid start_date = true -> Date.valid end_date = true ->
  Date.leb start_date end_date = true ->
  let months := month_ordinal end_date - month_ordinal start_date + 1 in
  let g := generate_date_strings start_date end_date in
  0 < months
  /\ g.1 = token_of_ordinal <$> seqZ (month_ordinal start_date) months
  /\ length g.1 = Z.to_nat months
  /\ NoDup g.1
  /\ generate_date_strings (replace_day1 start_date) (replace_day1 end_date) = g
  /\ g.2 = (if month_ordinal end_date =? 119999
            then GenRaise ValueError else StopIteration).
Proof.
  intros Vs Ve Hle months g.
  pose proof (leb_ordinal_le _ _ Vs Ve Hle) as Ho.
  pose proof (ordinal_range _ Vs) as Rs. pose proof (ordinal_range _ Ve) as Re.
  assert (Eg : g = (token_of_ordinal <$> seqZ (month_ordinal start_date) months,
                    if month_ordinal end_date =? 119999
                    then GenRaise ValueError else StopIteration))
    by (apply generate_date_strings_spec; assumption).
  rewrite Eg. cbn [fst snd].
  split; [unfold months; lia|]. split; [reflexivity|].
  split; [rewrite length_fmap, length_seqZ; reflexivity|].
  split.
  - apply NoDup_fmap_2_strong; [|apply NoDup_seqZ].
    intros i j Hi Hj. apply elem_of_seqZ in Hi, Hj.
    apply token_of_ordinal_inj; unfold months in *; lia.
  - rewrite <- Eg. unfold g.
    rewrite !generate_date_strings_spec; auto using valid_replace_day1.
    apply valid_bounds in Vs, Ve.
    rewrite leb_ordinal by (simpl; lia).
    change (month_ordinal (replace_day1 start_date))
      with (month_ordinal start_date).
    change (month_ordinal (replace_day1 end_date))
      with (month_ordinal end_date).
    destruct (Z.ltb_spec (month_ordinal start_date) (month_ordinal end_date));
      [reflexivity|].
    destruct (Z.ltb_spec (month_ordinal end_date) (month_ordinal start_date));
      [lia|reflexivity].
Qed.

(** C7: when [start_date] is after [end_date] the generator yields
    nothing and ends by exhaustion, not by an exception. *)
Theorem generate_date_strings_empty_when_start_after_end start_date end_date :
  Date.ltb end_date start_date = true ->
  generate_date_strings start_date end_date = ([], StopIteration).
Proof.
  intros Hgt. unfold generate_date_strings.
  rewrite gds_loop_eq, <- (negb_involutive (Date.leb _ _)), <- Date_ltb_leb, Hgt.
  reflexivity.
Qed.

(** C10: every token the generator yields from a start date with a
    four-digit year has six characters and stands for a month between
    the start and the end; two such tokens compare as strings the way
    their months compare in time, and the comparison with ['202404']
    that selects the legacy suffix holds exactly for the months up to
    April 2024 (ordinal 2024 * 12 + 3). *)
Theorem legacy_cutoff_is_chronological start_date end_date tok1 tok2 :
  Date.valid start_date = true -> Date.valid end_date = true ->
  1000 <= year start_date ->
  tok1 ∈ (generate_date_strings start_date end_date).1 ->
  tok2 ∈ (generate_date_strings start_date end_date).1 ->
  exists i1 i2,
    tok1 = token_of_ordinal i1 /\ tok2 = token_of_ordinal i2
    /\ month_ordinal start_date <= i1 <= month_ordinal end_date
    /\ month_ordinal start_date <= i2 <= month_ordinal end_date
    /\ String.length tok1 = 6%nat
    /\ String.compare tok1 tok2 = Z.compare i1 i2
    /\ (String.leb tok1 "202404" = true <-> i1 <= 2024 * 12 + 3)
    /\ (legacy_suffix tok1 = ".csv" <-> i1 <= 2024 * 12 + 3).
Proof.
  intros Vs Ve Hy.
  destruct (Date.leb start_date end_date) eqn:Hle.
  2:{ unfold generate_date_strings. rewrite gds_loop_eq, Hle. simpl.
      intros Hin. apply elem_of_nil in Hin. contradiction. }
  rewrite generate_date_strings_spec by assumption. cbn [fst].
  intros (i1 & -> & H1)%list_elem_of_fmap (i2 & -> & H2)%list_elem_of_fmap.
  apply elem_of_seqZ in H1, H2.
  pose proof (ordinal_range _ Ve) as Re.
  assert (12000 <= month_ordinal start_date)
    by (apply valid_bounds in Vs; unfold month_ordinal; lia).
  assert (Hleb : String.leb (token_of_ordinal i1) "202404" = true
                 <-> i1 <= 2024 * 12 + 3).
  { unfold String.leb. rewrite <- token_202404, token_compare by lia.
    destruct (Z.compare_spec i1 24291); split; intros; try lia; try reflexivity;
      discriminate. }
  exists i1, i2. repeat split; try lia.
  - apply token_length_four_digit_year. lia.
  - apply token_compare; lia.
  - apply Hleb.
  - apply Hleb.
  - unfold legacy_suffix.
    destruct (String.leb (token_of_ordinal i1) "202404"); [|discriminate].
    intros _. apply Hleb. reflexivity.
  - intros Hi. apply Hleb in Hi. unfold legacy_suffix. rewrite Hi. reflexivity.
Qed.

(** ** Tokens are strings of digits *)

Lemma digit_is_digit n : 0 <= n < 10 -> is_digit (digit n) = true.
Proof.
  intros Hn. unfold digit, is_digit.
  rewrite nat_ascii_embedding by lia.
  apply andb_true_iff. split; apply Nat.leb_le; lia.
Qed.

Lemma zfill_all_digits width n : all_digits (zfill width n) = true.
Proof.
  induction width as [|width IH]; [reflexivity|].
  cbn [zfill all_digits]. rewrite IH, digit_is_digit; [reflexivity|].
  apply Z.mod_pos_bound. lia.
Qed.

Lemma all_digits_append a b :
  all_digits a = true -> all_digits b = true -> all_digits (a +:+ b) = true.
Proof.
  intros Ha Hb. induction a as [|c a IH]; [exact Hb|].
  cbn [all_digits] in Ha. apply andb_true_iff in Ha as [Hc Ha].
  change (is_digit c && all_digits (a +:+ b) = true).
  rewrite Hc, IH by exact Ha. reflexivity.
Qed.

Lemma strftime_Ym_all_digits d : all_digits (strftime_Ym d) = true.
Proof.
  unfold strftime_Ym, strftime_Y, strftime_m.
  apply all_digits_append; [|apply zfill_all_digits].
  destruct zero_pad_year; apply zfill_all_digits.
Qed.

(** No ['.csv'] starts within a string of digits. *)
Lemma occurrences_csv_digits tok rest :
  all_digits tok = true ->
  occurrences ".csv" (tok +:+ rest) = occurrences ".csv" rest.
Proof.
  intros Ht. induction tok as [|c tok IH]; [reflexivity|].
  cbn [all_digits] in Ht. apply andb_true_iff in Ht as [Hc Ht].
  change (occurrences ".csv" (String c (tok +:+ rest))
          = occurrences ".csv" rest).
  cbn [occurrences String.prefix].
  destruct (ascii_dec "." c) as [<-|_]; [discriminate|].
  rewrite IH by exact Ht. reflexivity.
Qed.

Lemma occurrences_csv_url tok tail :
  all_digits tok = true ->
  occurrences ".csv" (DATA_SOURCE_URL +:+ tok +:+ tail)
  = occurrences ".csv" tail.
Proof.
  intros Ht. rewrite <- (occurrences_csv_digits tok tail Ht). reflexivity.
Qed.

(** The suffix of the backfill loop, by the calendar. *)
Lemma legacy_suffix_by_month d :
  Date.valid d = true -> 1000 <= year d ->
  legacy_suffix (strftime_Ym d)
  = if month_ordinal d <=? 2024 * 12 + 3 then ".csv" else "".
Proof.
  intros V Hy. pose proof (valid_bounds _ V) as B.
  assert (Ho : 12000 <= month_ordinal d <= 119999)
    by (unfold month_ordinal; lia).
  unfold legacy_suffix, String.leb.
  rewrite (strftime_Ym_ordinal d) by lia.
  rewrite <- token_202404, token_compare by lia.
  change (2024 * 12 + 3) with 24291.
  destruct (Z.leb_spec (month_ordinal d) 24291) as [Hle|Hgt];
    destruct (Z.compare_spec (month_ordinal d) 24291); try lia; reflexivity.
Qed.

End TokenFacts.

(** ** Paths *)

Lemma has_sep_basename p : has_sep (basename p) = false.
Proof.
  induction p as [|c p IH]; simpl; [reflexivity|].
  destruct (has_sep p) eqn:Hs; [exact IH|].
  destruct (is_sep c) eqn:Hc; [exact Hs|]. simpl. rewrite Hc, Hs. reflexivity.
Qed.

Lemma startswith_sep_has_sep s : has_sep s = false -> startswith_sep s = false.
Proof. destruct s as [|c s]; simpl; [reflexivity|]. destruct (is_sep c); auto. Qed.

(** Joining a non-empty relative name to a directory gives a longer
    path, hence another path than the directory. *)
Lemma os_path_join_longer d f :
  str_truthy f = true -> has_sep f = false ->
  (String.length d < String.length (os_path_join d f))%nat.
Proof.
  intros Hf Hs. unfold os_path_join.
  rewrite (startswith_sep_has_sep _ Hs).
  destruct f as [|c f]; [discriminate|].
  destruct (negb (str_truthy d) || endswith_sep d);
    rewrite !append_length; simpl; lia.
Qed.

Lemma os_path_join_ne d f :
  str_truthy f = true -> has_sep f = false -> os_path_join d f <> d.
Proof.
  intros Hf Hs E. pose proof (os_path_join_longer d f Hf Hs) as L.
  rewrite E in L. lia.
Qed.

(** ** The monad *)

Lemma bind_ok {A B} (m : M A) (f : A -> M B) w a w1 :
  m w = (Ok a, w1) -> (m ≫= f) w = f a w1.
Proof. unfold mbind, M_bind. intros ->. reflexivity. Qed.

Lemma bind_raise {A B} (m : M A) (f : A -> M B) w e w1 :
  m w = (Raise e, w1) -> (m ≫= f) w = (Raise e, w1).
Proof. unfold mbind, M_bind. intros ->. reflexivity. Qed.

Lemma bind_assoc {A B C} (m : M A) (f : A -> M B) (g : B -> M C) w :
  ((m ≫= f) ≫= g) w = (m ≫= (fun a => f a ≫= g)) w.
Proof.
  unfold mbind, M_bind. destruct (m w) as [[a|e] w1]; reflexivity.
Qed.

Lemma try_ok {A} (m : M A) h w a w1 :
  m w = (Ok a, w1) -> try_except m h w = (Ok a, w1).
Proof. unfold try_except. intros ->. reflexivity. Qed.

Lemma try_raise {A} (m : M A) h w e w1 :
  m w = (Raise e, w1) -> try_except m h w = h e w1.
Proof. unfold try_except. intros ->. reflexivity. Qed.

(** The chunks of a body end up in the open file one after the other. *)
Lemma for_each_write p chunks : forall w,
  for_each chunks
    (fun chunk => if nonempty chunk then f_write p chunk else mret tt) w
  = (Ok tt, World (alter (fun old => old ++ concat chunks) p (files w))
              (dirs w) (log w)).
Proof.
  induction chunks as [|c cs IH]; intros [fs ds lg]; simpl.
  - unfold mret, M_ret. rewrite alter_id; [reflexivity|].
    intros x _. apply app_nil_r.
  - destruct c as [|b c]; simpl.
    + unfold mbind, M_bind, mret, M_ret. rewrite IH. reflexivity.
    + unfold mbind, M_bind, f_write. simpl. rewrite IH. simpl.
      rewrite alter_alter_eq. do 2 f_equal. apply alter_ext.
      intros x _. simpl. rewrite <- app_assoc. reflexivity.
Qed.

Section ScriptFacts.
Context `{Env}.

(** ** download_file *)

(** A request that is answered with a status below 400 (or from 600 on)
    is written to the file named by the last component of the path of
    the URL, whatever that file held before; when the stream breaks the
    chunks received so far stay in the file and the result is [None]. *)
Lemma download_file_response url w path r :
  files w !! DATA_DIR = None ->
  urlparse_path url = Ok path ->
  str_truthy (basename path) = true ->
  requests_get url = GetResponse r ->
  ~ (400 <= status_code r < 600) ->
  os_path_join DATA_DIR (basename path) ∉ dirs w ->
  let output_path := os_path_join DATA_DIR (basename path) in
  download_file url w
  = (Ok (match body_error r with
         | None => Some output_path
         | Some _ => None
         end),
     World (<[output_path := concat (body r)]> (files w))
           ({[DATA_DIR]} ∪ dirs w)
           (log w ++ [InfoDownloading url output_path;
                      match body_error r with
                      | None => InfoDownloaded (basename path)
                      | Some e => download_error_record e
                      end])).
Proof.
  intros Hdir Hpath Hname Hget Hstatus Hout output_path.
  assert (Hne : output_path <> DATA_DIR)
    by (apply os_path_join_ne; auto using has_sep_basename).
  unfold download_file, try_except, mbind, M_bind, mkdir_p, lift, logger,
    raise_for_status, for_iter_content, open_wb, raise, mret, M_ret.
  rewrite Hdir, Hpath, Hname, Hget. simpl.
  destruct ((400 <=? status_code r) && (status_code r <? 600)) eqn:Es; [lia|].
  simpl. fold output_path.
  destruct (decide (output_path ∈ {[DATA_DIR]} ∪ dirs w)) as [Hin|Hin].
  { apply elem_of_union in Hin as [Hin%elem_of_singleton|Hin]; contradiction. }
  unfold mbind, M_bind. rewrite for_each_write. simpl.
  rewrite alter_insert_eq. simpl.
  destruct (body_error r) as [[]|]; simpl; rewrite <- app_assoc; reflexivity.
Qed.

(** A download that fails before the file is opened returns [None] and
    leaves every file as it was. *)
Lemma download_file_fails url w :
  download_fails url ->
  (download_file url w).1 = Ok None
  /\ files (download_file url w).2 = files w
  /\ exists e, log (download_file url w).2
               = log w ++ [download_error_record e]
            \/ exists p, log (download_file url w).2
               = log w ++ [InfoDownloading url p; download_error_record e].
Proof.
  intros Hf.
  unfold download_file, try_except, mbind, M_bind, mkdir_p, lift, logger,
    raise_for_status, raise, mret, M_ret.
  destruct (files w !! DATA_DIR) eqn:Hdir; simpl.
  { split; [reflexivity|split; [reflexivity|]]. exists OSError. left.
    reflexivity. }
  destruct (urlparse_path url) as [path|e] eqn:Hpath; simpl.
  2:{ split; [|split]; [destruct e; reflexivity ..|].
      exists e. left. destruct e; reflexivity. }
  destruct (str_truthy (basename path)) eqn:Hname; simpl.
  2:{ split; [reflexivity|split; [reflexivity|]]. exists ValueError. left.
      reflexivity. }
  destruct (requests_get url) as [e|r] eqn:Hget; simpl.
  { split; [|split]; [destruct e; reflexivity ..|].
    exists e. right. eexists.
    destruct e; simpl; rewrite <- app_assoc; reflexivity. }
  destruct ((400 <=? status_code r) && (status_code r <? 600)) eqn:Es; simpl.
  { split; [reflexivity|split; [reflexivity|]]. exists RequestException.
    right. eexists. rewrite <- app_assoc. reflexivity. }
  exfalso. destruct Hf as [e He | r' Hr' Hs | path' Hp' Hb].
  - congruence.
  - assert (r' = r) as -> by congruence. lia.
  - assert (path' = path) as -> by congruence. rewrite Hb in Hname.
    discriminate.
Qed.

(** ** unzip_file *)

Lemma outcome_when_extracted c m data :
  outcome_when c m = Extracted data -> m_outcome m = Extracted data.
Proof.
  unfold outcome_when. destruct c; [|auto].
  destruct (after_overwrite m); [discriminate|auto].
Qed.

Lemma make_dir_frame p w :
  files (make_dir p w).2 = files w /\ log (make_dir p w).2 = log w.
Proof.
  unfold make_dir. destruct (decide (p ∈ dirs w)); [auto|].
  destruct (files w !! p); auto.
Qed.

Lemma for_each_make_dir_frame ps : forall w,
  files (for_each ps make_dir w).2 = files w
  /\ log (for_each ps make_dir w).2 = log w.
Proof.
  induction ps as [|p ps IH]; intros w; simpl; [auto|].
  unfold mbind, M_bind. destruct (make_dir_frame p w) as [Hf Hl].
  destruct (make_dir p w) as [[[]|e] w1]; cbn [fst snd] in *; [|auto].
  destruct (IH w1) as [Hf1 Hl1]. split; congruence.
Qed.

Lemma make_parents_frame ps w :
  files (make_parents ps w).2 = files w
  /\ log (make_parents ps w).2 = log w.
Proof.
  unfold make_parents. destruct (last ps); [|auto].
  unfold mbind, M_bind, path_exists.
  destruct (_ || _); [auto|]. apply for_each_make_dir_frame.
Qed.

Lemma make_dir_entry_frame t parent w :
  files (make_dir_entry t parent w).2 = files w
  /\ log (make_dir_entry t parent w).2 = log w.
Proof.
  unfold make_dir_entry, mbind, M_bind, below_directory, make_dir.
  destruct (decide (t ∈ dirs w)); [auto|].
  destruct parent as [d|]; [destruct (files w !! d); [auto|]|];
    (destruct (decide (t ∈ dirs w)); [auto|]);
    destruct (files w !! t); auto.
Qed.

(** What the extraction of one member does to the files, whatever the
    world: when it returns, the member was sound and, for a file entry,
    has been written; when it raises, the files are as before, or the
    target holds what was written before the failure.  The log stays. *)
Lemma is_dir_Ok m b : is_dir m = Ok b -> m_is_dir m = b.
Proof.
  unfold is_dir, m_is_dir. destruct (m_name m); [discriminate|].
  intros [= <-]. reflexivity.
Qed.

Lemma extract_member_cases zip_path c m w :
  let r := extract_member DATA_DIR zip_path c m w in
  log r.2 = log w
  /\ ((exists c', r.1 = Ok c' /\ m_error m = None
         /\ files r.2 = if m_is_dir m then files w
                        else <[target m := m_written m]> (files w))
      \/ (exists e, r.1 = Raise e
            /\ (files r.2 = files w
                \/ exists b, files r.2 = <[target m := b]> (files w)))).
Proof.
  unfold extract_member. fold (target m).
  set (parents := member_parents DATA_DIR (m_name m)).
  cbv zeta.
  destruct (make_parents_frame parents w) as [Hf1 Hl1].
  destruct (make_parents parents w) as [[[]|e1] w1] eqn:E1; cbn [fst snd] in *.
  2:{ rewrite (bind_raise _ _ _ _ _ E1). cbn [fst snd].
      split; [exact Hl1|]. right. exists e1. split; [reflexivity|]. auto. }
  rewrite (bind_ok _ _ _ _ _ E1).
  unfold m_error.
  destruct (is_dir m) as [directory|e0] eqn:Edir.
  2:{ unfold mbind, M_bind, lift. cbn [fst snd].
      split; [exact Hl1|]. right. exists e0. split; [reflexivity|]. auto. }
  rewrite (is_dir_Ok m directory Edir).
  rewrite (bind_ok (lift (Ok directory)) _ w1 directory w1 eq_refl).
  destruct directory.
  - unfold mbind, M_bind.
    destruct (make_dir_entry_frame (target m) (last parents) w1) as [Hf2 Hl2].
    destruct (make_dir_entry (target m) (last parents) w1) as [[[]|e2] w2];
      cbn [fst snd mret M_ret] in *.
    + split; [congruence|]. left. exists c. repeat split. congruence.
    + split; [congruence|]. right. exists e2. split; [reflexivity|].
      left. congruence.
  - assert (Hopen :
      let r := (below_directory (last parents);;
                open_wb (target m);;
                copy_member (target m)
                  (outcome_when (c || String.eqb (target m) zip_path) m);;
                mret (c || String.eqb (target m) zip_path)) w1 in
      log r.2 = log w
      /\ ((exists c', r.1 = Ok c'
             /\ (exists data, m_outcome m = Extracted data)
             /\ files r.2 = <[target m := m_written m]> (files w))
          \/ (exists e, r.1 = Raise e
                /\ (files r.2 = files w
                    \/ exists b, files r.2 = <[target m := b]> (files w))))).
    { unfold mbind, M_bind, below_directory, open_wb, copy_member, f_write,
        raise, mret, M_ret.
      assert (Hbelow :
        match last parents with
        | Some d => match files w1 !! d with
                    | Some _ => (Raise OSError, w1)
                    | None => (Ok tt, w1)
                    end
        | None => (Ok tt, w1)
        end = (Ok tt, w1)
        \/ match last parents with
           | Some d => match files w1 !! d with
                       | Some _ => (Raise OSError, w1)
                       | None => (Ok tt, w1)
                       end
           | None => (Ok tt, w1)
           end = (@Raise unit OSError, w1)).
      { destruct (last parents) as [d|]; [destruct (files w1 !! d)|]; auto. }
      destruct Hbelow as [-> | ->]; cbn [fst snd].
      2:{ split; [exact Hl1|]. right. eexists. split; [reflexivity|]. auto. }
      destruct (decide (target m ∈ dirs w1)); cbn [fst snd].
      { split; [exact Hl1|]. right. eexists. split; [reflexivity|]. auto. }
      simpl. rewrite Hf1.
      destruct (outcome_when (c || String.eqb (target m) zip_path) m)
        as [data|[e|written e]] eqn:Eo; simpl.
      - rewrite alter_insert_eq. split; [exact Hl1|]. left.
        exists (c || String.eqb (target m) zip_path). split; [reflexivity|].
        apply outcome_when_extracted in Eo. unfold m_written. rewrite Eo.
        eauto.
      - split; [exact Hl1|]. right. exists e. split; [reflexivity|]. eauto.
      - rewrite alter_insert_eq. split; [exact Hl1|]. right. exists e.
        split; [reflexivity|]. eauto. }
    destruct (outcome_when c m) as [data|[e|written e]] eqn:Ec.
    + cbv zeta in Hopen. destruct Hopen as [Hl [(c' & Hr & [d Hd] & Hfs)|Hr]].
      * split; [exact Hl|]. left. exists c'. rewrite Hd. auto.
      * split; [exact Hl|]. right. exact Hr.
    + split; [exact Hl1|]. right. exists e. split; [reflexivity|]. auto.
    + cbv zeta in Hopen. destruct Hopen as [Hl [(c' & Hr & [d Hd] & Hfs)|Hr]].
      * split; [exact Hl|]. left. exists c'. rewrite Hd. auto.
      * split; [exact Hl|]. right. exact Hr.
Qed.

Lemma extract_files_is_Some ms : forall fs p,
  is_Some (fs !! p) -> is_Some (extract_files ms fs !! p).
Proof.
  induction ms as [|m ms IH]; intros fs p Hp; simpl; [exact Hp|].
  apply IH. destruct (m_is_dir m); [exact Hp|].
  apply lookup_insert_is_Some'. auto.
Qed.

Lemma extract_files_app pre post fs :
  extract_files (pre ++ post) fs = extract_files post (extract_files pre fs).
Proof. apply foldl_app. Qed.

(** What [extractall] does to the files, whatever the world: when it
    returns, every member was sound and the file entries have been
    written; when it raises at a member, the members before it were
    sound and have been written, and the target of the failing one holds
    what was written before the failure, if it was opened at all.  The
    log stays. *)
Lemma extract_members_cases zip_path ms : forall c w,
  let r := extract_members DATA_DIR zip_path c ms w in
  log r.2 = log w
  /\ ((r.1 = Ok tt /\ Forall (fun m => m_error m = None) ms
       /\ files r.2 = extract_files ms (files w))
      \/ (exists e pre m post,
            r.1 = Raise e /\ ms = (pre ++ m :: post)%list
            /\ Forall (fun m' => m_error m' = None) pre
            /\ (files r.2 = extract_files pre (files w)
                \/ exists b, files r.2
                             = <[target m := b]> (extract_files pre (files w))))).
Proof.
  induction ms as [|m ms IH]; intros c w; cbv zeta.
  - simpl. split; [reflexivity|]. left. auto.
  - cbn [extract_members].
    destruct (extract_member_cases zip_path c m w) as [Hl Hm].
    destruct (extract_member DATA_DIR zip_path c m w) as [[c'|e] w1] eqn:E;
      cbn [fst snd] in *.
    + rewrite (bind_ok _ _ _ _ _ E).
      destruct Hm as [(c'' & _ & Herr & Hfs)|(e & [=] & _)].
      destruct (IH c' w1) as [Hl' Hms]. split; [congruence|].
      destruct Hms as [(Hr & Hall & Hfiles)|(e & pre & m' & post & Hr & -> & Hall & Hfiles)].
      * left. split; [exact Hr|]. split; [constructor; assumption|].
        rewrite Hfiles, Hfs. reflexivity.
      * right. exists e, (m :: pre), m', post. split; [exact Hr|].
        split; [reflexivity|]. split; [constructor; assumption|].
        rewrite Hfs in Hfiles. exact Hfiles.
    + rewrite (bind_raise _ _ _ _ _ E). cbn [fst snd].
      split; [exact Hl|]. right. exists e, [], m, ms.
      destruct Hm as [(c'' & [=] & _)|(e' & _ & Hfs)]. auto.
Qed.

(** What [extractall] does in any case: the log stays and no file
    disappears; when it returns, every member was sound and written. *)
Lemma extractall_frame zip_path ms w :
  log (extractall DATA_DIR zip_path ms w).2 = log w
  /\ (forall p, is_Some (files w !! p) ->
                is_Some (files (extractall DATA_DIR zip_path ms w).2 !! p))
  /\ (forall u, (extractall DATA_DIR zip_path ms w).1 = Ok u ->
        Forall (fun m => m_error m = None) ms
        /\ files (extractall DATA_DIR zip_path ms w).2
           = extract_files ms (files w)).
Proof.
  unfold extractall.
  destruct (extract_members_cases zip_path ms false w) as [Hl Hms].
  split; [exact Hl|]. split.
  - intros p Hp.
    destruct Hms as [(_ & _ & ->)|(e & pre & m & post & _ & _ & _ & [->|[b ->]])].
    + apply extract_files_is_Some, Hp.
    + apply extract_files_is_Some, Hp.
    + apply lookup_insert_is_Some'. right. apply extract_files_is_Some, Hp.
  - intros u Hu.
    destruct Hms as [(_ & Hall & Hfs)|(e & pre & m & post & Hr & _)]; [auto|].
    congruence.
Qed.

(** [unfold] the monadic plumbing of the script's functions. *)
Ltac unfold_script :=
  unfold try_except, mbind, M_bind, mkdir_p, lift, logger, zip_open,
    os_remove, raise, mret, M_ret.

(** C2: when the archive exists, [unzip_file] returns [True] or [False]
    and never raises; the archive is gone afterwards exactly when the
    result is [True]; and then the file was a zip container all of whose
    members were sound and have been written, the remaining files being
    those of the extraction without the archive.  So a run that removed
    the archive extracted every entry, and a run in which the container
    or a member was bad kept the archive. *)
Theorem unzip_deletes_archive_only_after_full_extraction zip_path w content :
  files w !! zip_path = Some content ->
  let r := (unzip_file zip_path w).1 in
  let w' := (unzip_file zip_path w).2 in
  (r = Ok true \/ r = Ok false)
  /\ (files w' !! zip_path = None <-> r = Ok true)
  /\ (r = Ok true ->
      exists ms, zip_members content = Some ms
        /\ Forall (fun m => m_error m = None) ms
        /\ files w' = delete zip_path (extract_files ms (files w)))
  /\ (zip_members content = None
      \/ (exists ms, zip_members content = Some ms
            /\ Exists (fun m => m_error m <> None) ms) ->
      is_Some (files w' !! zip_path)).
Proof.
  intros Hzip r w'.
  assert (Hcases :
    (r = Ok false /\ is_Some (files w' !! zip_path))
    \/ (r = Ok true /\ files w' !! zip_path = None
        /\ exists ms, zip_members content = Some ms
             /\ Forall (fun m => m_error m = None) ms
             /\ files w' = delete zip_path (extract_files ms (files w)))).
  { subst r w'. unfold unzip_file. unfold_script.
    destruct (files w !! DATA_DIR) eqn:Hdir; simpl.
    { left. split; [reflexivity|]. rewrite Hzip. eauto. }
    rewrite Hzip.
    destruct (zip_members content) as [ms|] eqn:Hms; simpl.
    2:{ left. split; [reflexivity|]. rewrite Hzip. eauto. }
    set (w1 := World (files w) ({[DATA_DIR]} ∪ dirs w)
                 (log w ++ [InfoExtracting zip_path DATA_DIR])).
    destruct (extractall_frame zip_path ms w1) as (_ & Hkeep & Hok).
    destruct (extractall DATA_DIR zip_path ms w1) as [[[]|e] w2] eqn:Hex;
      simpl in *.
    - destruct (Hok tt eq_refl) as [Hall Hfiles].
      destruct (Hkeep zip_path) as [c2 Hc2]; [rewrite Hzip; eauto|].
      rewrite Hc2. simpl. right. split; [reflexivity|].
      split; [apply lookup_delete_eq|].
      exists ms. rewrite Hfiles. auto.
    - left. split; [destruct e; reflexivity|].
      replace (files _) with (files w2) by (destruct e; reflexivity).
      apply Hkeep. rewrite Hzip. eauto. }
  split; [tauto|]. split; [|split].
  - split.
    + intros Hnone. destruct Hcases as [[_ [c Hc]]|[Hr _]]; [congruence|exact Hr].
    + intros Hr. destruct Hcases as [[Hf _]|(_ & Hn & _)]; [congruence|exact Hn].
  - intros Hr. destruct Hcases as [[Hf _]|(_ & _ & Hex)]; [congruence|exact Hex].
  - intros Hbad. destruct Hcases as [[_ Hs]|(_ & _ & ms & Hms & Hall & _)];
      [exact Hs|].
    exfalso. destruct Hbad as [Hn|(ms' & Hms' & Hex)]; [congruence|].
    assert (ms' = ms) as -> by congruence.
    apply Exists_exists in Hex as (m & Hin & Hm).
    rewrite Forall_forall in Hall. apply Hm, Hall, Hin.
Qed.

(** The world after a handler of [unzip_file] has logged [e]. *)
Local Abbreviation unzip_failed e w :=
  (Ok false, World (files w) (dirs w) (log w ++ [extraction_error_record e])).

(** Every path through [unzip_file]. *)
Lemma unzip_file_spec zip_path w :
  unzip_file zip_path w
  = match files w !! DATA_DIR with
    | Some _ => unzip_failed OSError w
    | None =>
        let w1 := World (files w) ({[DATA_DIR]} ∪ dirs w)
                    (log w ++ [InfoExtracting zip_path DATA_DIR]) in
        match files w !! zip_path with
        | None => unzip_failed OSError w1
        | Some content =>
            match zip_members content with
            | None => unzip_failed BadZipFile w1
            | Some ms =>
                match extractall DATA_DIR zip_path ms w1 with
                | (Raise e, w2) => unzip_failed e w2
                | (Ok _, w2) =>
                    match files w2 !! zip_path with
                    | Some _ =>
                        (Ok true,
                         World (delete zip_path (files w2)) (dirs w2)
                               (log w2 ++ [InfoExtracted zip_path;
                                           InfoDeleted zip_path]))
                    | None =>
                        (Ok false,
                         World (files w2) (dirs w2)
                               (log w2 ++ [InfoExtracted zip_path;
                                           ErrorExtracting OSError]))
                    end
                end
            end
        end
    end.
Proof.
  unfold unzip_file. unfold_script.
  destruct (files w !! DATA_DIR); [reflexivity|]. simpl.
  destruct (files w !! zip_path) as [content|]; [|reflexivity].
  destruct (zip_members content) as [ms|]; [|reflexivity].
  destruct (extractall DATA_DIR zip_path ms _) as [[[]|e] w2]; simpl.
  - destruct (files w2 !! zip_path); simpl; rewrite <- app_assoc; reflexivity.
  - destruct e; reflexivity.
Qed.

Lemma extract_files_targets ms : forall fs m,
  m ∈ ms -> m_is_dir m = false -> is_Some (extract_files ms fs !! target m).
Proof.
  induction ms as [|m0 ms IH]; intros fs m Hin Hfile.
  - apply elem_of_nil in Hin. contradiction.
  - apply elem_of_cons in Hin as [->|Hin]; simpl.
    + apply extract_files_is_Some. rewrite Hfile, lookup_insert_eq. eauto.
    + apply IH; assumption.
Qed.

(** C6, as the code has it: whenever [unzip_file] returns [False] on an
    archive that exists, the archive is still there and no file has been
    removed; the log ends with the line of the class of the exception
    ("Invalid zip file" for [BadZipFile], "Error extracting zip file"
    otherwise); a file that is not a zip container leaves every file as
    it was; and when extraction raises at a member, the members before
    it were sound, the file entries among them are present, and the
    files are those of their extraction, the target of the failing
    member holding what was written of it when it was opened. *)
Theorem failed_extraction_keeps_archive_and_earlier_entries zip_path w content :
  files w !! zip_path = Some content ->
  (unzip_file zip_path w).1 = Ok false ->
  let w' := (unzip_file zip_path w).2 in
  let w1 := World (files w) ({[DATA_DIR]} ∪ dirs w)
              (log w ++ [InfoExtracting zip_path DATA_DIR]) in
  is_Some (files w' !! zip_path)
  /\ (forall p, is_Some (files w !! p) -> is_Some (files w' !! p))
  /\ (is_Some (files w !! DATA_DIR) ->
      files w' = files w /\ log w' = log w ++ [ErrorExtracting OSError])
  /\ (files w !! DATA_DIR = None -> zip_members content = None ->
      files w' = files w
      /\ log w' = log w ++ [InfoExtracting zip_path DATA_DIR;
                            ErrorInvalidZip BadZipFile])
  /\ (forall ms, files w !! DATA_DIR = None -> zip_members content = Some ms ->
      exists e pre m post,
        (extractall DATA_DIR zip_path ms w1).1 = Raise e
        /\ log w' = log w ++ [InfoExtracting zip_path DATA_DIR;
                              extraction_error_record e]
        /\ ms = (pre ++ m :: post)%list
        /\ Forall (fun m' => m_error m' = None) pre
        /\ (files w' = extract_files pre (files w)
            \/ exists b, files w'
                         = <[target m := b]> (extract_files pre (files w)))
        /\ forall m', m' ∈ pre -> m_is_dir m' = false ->
             is_Some (files w' !! target m')).
Proof.
  intros Hzip. rewrite unzip_file_spec, Hzip. cbv zeta.
  destruct (files w !! DATA_DIR) as [c0|] eqn:Hdir; cbn [fst snd files log].
  { intros _. split; [rewrite Hzip; eauto|]. split; [auto|].
    split; [auto|]. split; [discriminate|]. discriminate. }
  destruct (zip_members content) as [ms|] eqn:Hms; cbn [fst snd files log].
  2:{ intros _. split; [rewrite Hzip; eauto|]. split; [auto|].
      split; [intros [? [=]]|]. split; [|discriminate].
      intros _ _. rewrite <- app_assoc. auto. }
  set (w1 := World (files w) ({[DATA_DIR]} ∪ dirs w)
               (log w ++ [InfoExtracting zip_path DATA_DIR])).
  destruct (extractall_frame zip_path ms w1) as (_ & Hkeep & _).
  unfold extractall in *.
  destruct (extract_members_cases zip_path ms false w1) as [Hl Hcases].
  destruct (extract_members DATA_DIR zip_path false ms w1) as [[[]|e] w2] eqn:Hex;
    cbn [fst snd] in *.
  - destruct (Hkeep zip_path) as [c2 Hc2]; [simpl; rewrite Hzip; eauto|].
    rewrite Hc2. discriminate.
  - intros _. cbn [files log].
    split; [apply Hkeep; simpl; rewrite Hzip; eauto|].
    split; [exact Hkeep|]. split; [intros [? [=]]|].
    split; [discriminate|].
    intros ms' _ [= <-].
    destruct Hcases as [([=] & _)|(e' & pre & m & post & [= <-] & -> & Hall & Hfs)].
    exists e, pre, m, post. split; [rewrite Hex; reflexivity|].
    split; [rewrite Hl; simpl; rewrite <- app_assoc; reflexivity|].
    split; [reflexivity|]. split; [exact Hall|]. split; [exact Hfs|].
    intros m' Hm' Hfile.
    destruct Hfs as [->|[b ->]].
    + apply extract_files_targets; assumption.
    + apply lookup_insert_is_Some'. right.
      apply extract_files_targets; assumption.
Qed.

(** ** download_file: claims *)

(** C8: when the status passes [raise_for_status] and the stream raises
    after some chunks, [download_file] returns [None], and the file at
    the output path holds the chunks received before the failure: it is
    not removed. *)
Theorem broken_stream_leaves_partial_file url w path r e :
  files w !! DATA_DIR = None ->
  urlparse_path url = Ok path ->
  str_truthy (basename path) = true ->
  requests_get url = GetResponse r ->
  ~ (400 <= status_code r < 600) ->
  body_error r = Some e ->
  os_path_join DATA_DIR (basename path) ∉ dirs w ->
  let output_path := os_path_join DATA_DIR (basename path) in
  download_file url w
  = (Ok None,
     World (<[output_path := concat (body r)]> (files w))
           ({[DATA_DIR]} ∪ dirs w)
           (log w ++ [InfoDownloading url output_path;
                      download_error_record e]))
  /\ (download_file url w).2.(files) !! output_path = Some (concat (body r)).
Proof.
  intros Hdir Hpath Hname Hget Hst He Hout output_path.
  rewrite (download_file_response url w path r) by assumption.
  rewrite He. split; [reflexivity|]. simpl. apply lookup_insert_eq.
Qed.

(** C9: the local file is named by the last component of the path of
    the URL alone.  Two URLs with one such component, downloaded one
    after the other, both return the one path, and the second body
    replaces the first without any error being logged; whatever the
    file held before the first download is replaced as well. *)
Theorem same_basename_same_local_file url1 url2 w path1 path2 r1 r2 :
  files w !! DATA_DIR = None ->
  urlparse_path url1 = Ok path1 -> urlparse_path url2 = Ok path2 ->
  basename path1 = basename path2 ->
  str_truthy (basename path1) = true ->
  requests_get url1 = GetResponse r1 -> requests_get url2 = GetResponse r2 ->
  ~ (400 <= status_code r1 < 600) -> ~ (400 <= status_code r2 < 600) ->
  body_error r1 = None -> body_error r2 = None ->
  os_path_join DATA_DIR (basename path1) ∉ dirs w ->
  let output_path := os_path_join DATA_DIR (basename path1) in
  let w1 := (download_file url1 w).2 in
  let w2 := (download_file url2 w1).2 in
  (download_file url1 w).1 = Ok (Some output_path)
  /\ files w1 = <[output_path := concat (body r1)]> (files w)
  /\ (download_file url2 w1).1 = Ok (Some output_path)
  /\ files w2 = <[output_path := concat (body r2)]> (files w)
  /\ log w2 = log w ++ [InfoDownloading url1 output_path;
                        InfoDownloaded (basename path1);
                        InfoDownloading url2 output_path;
                        InfoDownloaded (basename path1)].
Proof.
  intros Hdir Hp1 Hp2 Hb Hname Hg1 Hg2 Hs1 Hs2 He1 He2 Hout output_path w1 w2.
  assert (Hne : output_path <> DATA_DIR)
    by (apply os_path_join_ne; auto using has_sep_basename).
  assert (E1 : download_file url1 w
               = (Ok (Some output_path),
                  World (<[output_path := concat (body r1)]> (files w))
                        ({[DATA_DIR]} ∪ dirs w)
                        (log w ++ [InfoDownloading url1 output_path;
                                   InfoDownloaded (basename path1)]))).
  { rewrite (download_file_response url1 w path1 r1) by assumption.
    rewrite He1. reflexivity. }
  subst w2 w1. rewrite E1. simpl.
  rewrite (download_file_response url2 _ path2 r2); simpl;
    rewrite <- ?Hb; try assumption.
  - rewrite He2. simpl. rewrite insert_insert_eq, <- app_assoc. auto.
  - rewrite lookup_insert_ne by exact Hne. exact Hdir.
  - intros [Hin%elem_of_singleton|Hin]%elem_of_union; contradiction.
Qed.

(** ** The backfill loop *)

(** ** main *)

(** C3: except in January of year 1 (where the subtraction overflows),
    the most recent date is the last day of the calendar month before
    that of [today]; its token is that of this month, and it is the
    token of the URL the default mode of [main] downloads.  For
    2025-03-15 the date is 2025-02-28 and the token 202502. *)
Theorem most_recent_period_is_previous_month today w :
  Date.valid today = true -> (year today <> 1 \/ month today <> 1) ->
  exists d, get_most_recent_date today = Ok d
    /\ Date.valid d = true
    /\ month_ordinal d = month_ordinal today - 1
    /\ day d = days_in_month (year d) (month d)
    /\ strftime_Ym d = token_of_ordinal (month_ordinal today - 1)
    /\ main (Args false None) today w
       = download_and_unzip (default_url (strftime_Ym d)) w
    /\ (today = Date.Build 2025 3 15 ->
        d = Date.Build 2025 2 28 /\ strftime_Ym d = "202502").
Proof.
  intros V Hne.
  destruct (get_most_recent_date_spec today V Hne) as (d & Hd & Vd & Ho & Hday).
  exists d. split; [exact Hd|]. split; [exact Vd|]. split; [exact Ho|].
  split; [exact Hday|]. split; [|split].
  - rewrite <- Ho. apply strftime_Ym_ordinal. apply valid_bounds in Vd. lia.
  - unfold main. simpl. unfold mbind, M_bind, lift. rewrite Hd. reflexivity.
  - intros ->. injection Hd as <-. split; [reflexivity|].
    unfold strftime_Ym. rewrite strftime_Y_four_digits by (simpl; lia).
    reflexivity.
Qed.

(** [--url] with a non-empty URL: that URL is downloaded as it is,
    whether or not [--backfill] is given. *)
Lemma explicit_url_takes_precedence backfill u today w :
  str_truthy u = true ->
  main (Args backfill (Some u)) today w = download_and_unzip u w.
Proof. intros Hu. unfold main. simpl. rewrite Hu. reflexivity. Qed.

(** The URL of a period in the backfill loop carries [.csv] once,
    before [.zip], when the token is at most ['202404'], and no suffix
    otherwise. *)
Lemma backfill_url_shape date_str :
  backfill_url date_str
  = if String.leb date_str "202404"
    then DATA_SOURCE_URL +:+ date_str +:+ "-citibike-tripdata" +:+ ".csv" +:+ ".zip"
    else DATA_SOURCE_URL +:+ date_str +:+ "-citibike-tripdata" +:+ ".zip".
Proof.
  unfold backfill_url, legacy_suffix.
  destruct (String.leb date_str "202404"); reflexivity.
Qed.

(** ** Every period is processed *)

Lemma processed_snoc l r :
  processed (l ++ [r])
  = processed l ++ match r with InfoProcessing s => [s] | _ => [] end.
Proof. unfold processed. rewrite omap_app. destruct r; reflexivity. Qed.

Lemma quiet_same_log {A} (m : M A) :
  (forall w, log (m w).2 = log w) -> quiet m.
Proof. intros Hm w. rewrite Hm. reflexivity. Qed.

Lemma quiet_ret {A} (a : A) : quiet (mret a).
Proof. intros w. reflexivity. Qed.

Lemma quiet_raise {A} e : quiet (@raise A e).
Proof. intros w. reflexivity. Qed.

Lemma quiet_lift {A} (r : res A) : quiet (lift r).
Proof. intros w. reflexivity. Qed.

Lemma quiet_bind {A B} (m : M A) (f : A -> M B) :
  quiet m -> (forall a, quiet (f a)) -> quiet (m ≫= f).
Proof.
  intros Hm Hf w. unfold mbind, M_bind. specialize (Hm w).
  destruct (m w) as [[a|e] w1]; simpl in *; [|exact Hm].
  rewrite Hf. exact Hm.
Qed.

Lemma quiet_try {A} (m : M A) h :
  quiet m -> (forall e, quiet (h e)) -> quiet (try_except m h).
Proof.
  intros Hm Hh w. unfold try_except. specialize (Hm w).
  destruct (m w) as [[a|e] w1]; simpl in *; [exact Hm|].
  rewrite Hh. exact Hm.
Qed.

Lemma quiet_for_each {A} (l : list A) body_fn :
  (forall x, quiet (body_fn x)) -> quiet (for_each l body_fn).
Proof.
  intros Hb. induction l as [|x l IH]; simpl.
  - apply quiet_ret.
  - apply quiet_bind; auto.
Qed.

Lemma quiet_logger r :
  match r with InfoProcessing _ => False | _ => True end ->
  quiet (logger r).
Proof.
  intros Hr w. unfold logger. simpl. rewrite processed_snoc.
  destruct r; try contradiction; apply app_nil_r.
Qed.

Lemma safe_ret {A} (a : A) : safe (mret a).
Proof. intros w. exists a. reflexivity. Qed.

Lemma safe_logger r : safe (logger r).
Proof. intros w. exists tt. reflexivity. Qed.

Lemma safe_bind {A B} (m : M A) (f : A -> M B) :
  safe m -> (forall a, safe (f a)) -> safe (m ≫= f).
Proof.
  intros Hm Hf w. unfold mbind, M_bind. destruct (Hm w) as [a Ha].
  destruct (m w) as [[a'|e] w1]; simpl in Ha; [|discriminate].
  apply Hf.
Qed.

Lemma safe_try {A} (m : M A) h :
  (forall e, safe (h e)) -> safe (try_except m h).
Proof.
  intros Hh w. unfold try_except.
  destruct (m w) as [[a|e] w1]; [exists a; reflexivity | apply Hh].
Qed.

(** One step of structural reasoning on a [quiet] or [safe] goal. *)
Ltac script_step :=
  match goal with
  | |- forall _, _ => intro
  | |- quiet (mret _) => apply quiet_ret
  | |- quiet (raise _) => apply quiet_raise
  | |- quiet (lift _) => apply quiet_lift
  | |- quiet (logger _) => apply quiet_logger; exact I
  | |- quiet (for_each _ _) => apply quiet_for_each
  | |- quiet (try_except _ _) => apply quiet_try
  | |- quiet (_ ≫= _) => apply quiet_bind
  | |- safe (mret _) => apply safe_ret
  | |- safe (logger _) => apply safe_logger
  | |- safe (try_except _ _) => apply safe_try
  | |- safe (_ ≫= _) => apply safe_bind
  | |- quiet (if ?b then _ else _) => destruct b
  | |- safe (if ?b then _ else _) => destruct b
  | |- quiet (match ?x with _ => _ end) => destruct x
  | |- safe (match ?x with _ => _ end) => destruct x
  end.

Lemma quiet_download_file url : quiet (download_file url).
Proof.
  unfold download_file, raise_for_status, for_iter_content.
  repeat script_step;
    try (apply quiet_same_log; intros w0; unfold mkdir_p, open_wb, f_write;
         simpl; repeat case_match; reflexivity).
Qed.

Lemma quiet_unzip_file zip_path : quiet (unzip_file zip_path).
Proof.
  unfold unzip_file.
  repeat script_step;
    try (apply quiet_same_log; intros w0; apply extractall_frame);
    try (apply quiet_same_log; intros w0;
         unfold mkdir_p, zip_open, os_remove;
         simpl; repeat case_match; reflexivity).
Qed.

Lemma safe_download_file url : safe (download_file url).
Proof. unfold download_file. repeat script_step. Qed.

Lemma safe_unzip_file zip_path : safe (unzip_file zip_path).
Proof. unfold unzip_file. repeat script_step. Qed.

Lemma quiet_download_and_unzip url : quiet (download_and_unzip url).
Proof.
  unfold download_and_unzip. apply quiet_bind; [apply quiet_download_file|].
  repeat script_step. apply quiet_unzip_file.
Qed.

Lemma safe_download_and_unzip url : safe (download_and_unzip url).
Proof.
  unfold download_and_unzip. apply safe_bind; [apply safe_download_file|].
  intros [p|]; [|apply safe_logger].
  destruct (str_truthy p); [|apply safe_logger].
  apply safe_bind; [apply safe_unzip_file|]. intros []; apply safe_logger.
Qed.

Lemma backfill_loop_processed toks : forall w,
  exists w', for_each toks backfill_step w = (Ok tt, w')
    /\ processed (log w') = processed (log w) ++ toks.
Proof.
  induction toks as [|t toks IH]; intros w; simpl.
  - exists w. rewrite app_nil_r. auto.
  - set (w0 := World (files w) (dirs w) (log w ++ [InfoProcessing t])).
    destruct (safe_download_and_unzip (backfill_url t) w0) as [[] Hs].
    pose proof (quiet_download_and_unzip (backfill_url t) w0) as Hq.
    destruct (download_and_unzip (backfill_url t) w0) as [r w1] eqn:Hd.
    simpl in Hs, Hq. subst r.
    destruct (IH w1) as (w' & Hloop & Hp).
    assert (Hstep : backfill_step t w = (Ok tt, w1)).
    { unfold backfill_step, mbind, M_bind, logger. fold w0. exact Hd. }
    exists w'. split.
    + rewrite (bind_ok _ _ _ _ _ Hstep). exact Hloop.
    + rewrite Hp, Hq. unfold w0. simpl. rewrite processed_snoc, <- app_assoc.
      reflexivity.
Qed.

(** The periods of a backfill run: with the most recent date [d] of
    [today], the generator started at 2024-01-01 yields the months from
    January 2024 to the month before that of [today] and is exhausted;
    it yields nothing when [today] lies in January 2024 or before. *)
Lemma backfill_periods today d :
  Date.valid today = true ->
  get_most_recent_date today = Ok d ->
  generate_date_strings (Date.Build 2024 1 1) d
  = (token_of_ordinal <$> seqZ 24288 (month_ordinal today - 24288),
     StopIteration).
Proof.
  intros V Hd.
  assert (Hne : year today <> 1 \/ month today <> 1).
  { destruct (Z.eq_dec (year today) 1) as [Ey|]; [|auto].
    destruct (Z.eq_dec (month today) 1) as [Em|]; [|auto].
    exfalso. revert Hd.
    unfold get_most_recent_date, minus_one_day, replace_day1.
    cbn [year month day]. rewrite Ey, Em. discriminate. }
  destruct (get_most_recent_date_spec today V Hne) as (d' & Hd' & Vd & Ho & _).
  assert (d' = d) as -> by congruence.
  pose proof (ordinal_range _ V) as Rt.
  set (start_date := Date.Build 2024 1 1).
  destruct (Date.leb start_date d) eqn:Hle.
  - rewrite generate_date_strings_spec by (auto; reflexivity).
    change (month_ordinal start_date) with 24288.
    destruct (Z.eqb_spec (month_ordinal d) 119999); [lia|].
    do 3 f_equal. lia.
  - unfold generate_date_strings. rewrite gds_loop_eq, Hle.
    rewrite seqZ_nil; [reflexivity|].
    pose proof (valid_bounds _ Vd) as Bd.
    rewrite leb_ordinal in Hle by (simpl; lia).
    change (month_ordinal start_date) with 24288 in Hle.
    destruct (Z.ltb_spec 24288 (month_ordinal d)); [discriminate|].
    destruct (Z.ltb_spec (month_ordinal d) 24288); [lia|].
    simpl in Hle. lia.
Qed.

(** [main] in backfill mode, once the most recent date is known. *)
Lemma main_backfill_eq a today w d :
  truthy_url (args_url a) = None -> args_backfill a = true ->
  get_most_recent_date today = Ok d ->
  main a today w
  = for_generator (generate_date_strings (Date.Build 2024 1 1) d)
      backfill_step
      (World (files w) (dirs w)
             (log w ++ [InfoStartingBackfill (Date.Build 2024 1 1) d])).
Proof.
  intros Hu Hb Hd. unfold main. rewrite Hu, Hb.
  rewrite (bind_ok (lift (Date.new 2024 1 1)) _ w (Date.Build 2024 1 1) w eq_refl).
  rewrite (bind_ok (lift (get_most_recent_date today)) _ w d w)
    by (unfold lift; rewrite Hd; reflexivity).
  rewrite (bind_ok (logger _) _ w tt
             (World (files w) (dirs w)
                    (log w ++ [InfoStartingBackfill (Date.Build 2024 1 1) d]))
             eq_refl).
  reflexivity.
Qed.

(** X1: In backfill mode [main] ends normally and starts on every month
    from January 2024 to the month before the current one, in order,
    whatever happens to the downloads and extractions on the way. *)
Theorem backfill_processes_every_period today w :
  Date.valid today = true -> (year today <> 1 \/ month today <> 1) ->
  exists w', main (Args true None) today w = (Ok tt, w')
    /\ processed (log w')
       = processed (log w)
         ++ (token_of_ordinal <$> seqZ 24288 (month_ordinal today - 24288)).
Proof.
  intros V Hne.
  destruct (get_most_recent_date_spec today V Hne) as (d & Hd & _).
  rewrite (main_backfill_eq (Args true None) today w d eq_refl eq_refl Hd).
  rewrite (backfill_periods today d V Hd).
  unfold for_generator. cbn [fst snd].
  set (w0 := World _ _ _).
  destruct (backfill_loop_processed
              (token_of_ordinal <$> seqZ 24288 (month_ordinal today - 24288)) w0)
    as (w' & Hloop & Hp).
  exists w'. split.
  - unfold mbind, M_bind. rewrite Hloop. reflexivity.
  - rewrite Hp. unfold w0. simpl. rewrite processed_snoc, app_nil_r.
    reflexivity.
Qed.


(** ** Further properties of the script *)

(** *** Complete descriptions of the two stages *)

(** The world after a handler of [download_file] has logged [e]. *)
Local Abbreviation download_failed e w :=
  (Ok None, World (files w) (dirs w) (log w ++ [download_error_record e])).

(** Every path through [download_file]. *)
Lemma download_file_spec url w :
  download_file url w
  = match files w !! DATA_DIR with
    | Some _ => download_failed OSError w
    | None =>
        let w1 := World (files w) ({[DATA_DIR]} ∪ dirs w) (log w) in
        match urlparse_path url with
        | Raise e => download_failed e w1
        | Ok path =>
            if str_truthy (basename path) then
              let output_path := os_path_join DATA_DIR (basename path) in
              let w2 := World (files w) ({[DATA_DIR]} ∪ dirs w)
                          (log w ++ [InfoDownloading url output_path]) in
              match requests_get url with
              | GetRaises e => download_failed e w2
              | GetResponse r =>
                  if (400 <=? status_code r) && (status_code r <? 600)
                  then download_failed RequestException w2
                  else if decide (output_path ∈ {[DATA_DIR]} ∪ dirs w)
                  then download_failed OSError w2
                  else
                    let w3 := World (<[output_path := concat (body r)]> (files w))
                                ({[DATA_DIR]} ∪ dirs w)
                                (log w ++ [InfoDownloading url output_path]) in
                    match body_error r with
                    | Some e => download_failed e w3
                    | None =>
                        (Ok (Some output_path),
                         World (files w3) (dirs w3)
                               (log w3 ++ [InfoDownloaded (basename path)]))
                    end
              end
            else download_failed ValueError w1
        end
    end.
Proof.
  unfold download_file, try_except, mbind, M_bind, mkdir_p, lift, logger,
    raise_for_status, for_iter_content, open_wb, raise, mret, M_ret.
  destruct (files w !! DATA_DIR); [reflexivity|]. simpl.
  destruct (urlparse_path url) as [path|[]]; try reflexivity. simpl.
  destruct (str_truthy (basename path)); [|reflexivity]. simpl.
  destruct (requests_get url) as [[]|r]; try reflexivity. simpl.
  destruct ((400 <=? status_code r) && (status_code r <? 600)); [reflexivity|].
  simpl.
  destruct (decide (os_path_join DATA_DIR (basename path)
                    ∈ {[DATA_DIR]} ∪ dirs w)); [reflexivity|].
  unfold mbind, M_bind. rewrite for_each_write. simpl.
  rewrite alter_insert_eq. simpl.
  destruct (body_error r) as [[]|]; reflexivity.
Qed.

(** *** Extraction that meets no obstacle *)

(** Equality of two unions of sets of paths, element by element. *)
Ltac same_paths :=
  apply set_eq; intros ?;
  rewrite ?elem_of_union, ?elem_of_list_to_set, ?elem_of_cons,
    ?elem_of_union, ?elem_of_singleton;
  intuition (subst; auto).

Lemma gset_union_elem (p : string) (X : gset string) : p ∈ X -> {[p]} ∪ X = X.
Proof.
  intros Hp. apply set_eq. intros x. rewrite elem_of_union, elem_of_singleton.
  split; [intros [->|Hx]; assumption | auto].
Qed.

Lemma for_each_make_dir_ok ps : forall w,
  (forall p, p ∈ ps -> files w !! p = None) ->
  for_each ps make_dir w
  = (Ok tt, World (files w) (list_to_set ps ∪ dirs w) (log w)).
Proof.
  induction ps as [|p ps IH]; intros w Hps.
  - simpl. rewrite (left_id_L ∅ (∪)). destruct w; reflexivity.
  - cbn [for_each]. unfold mbind, M_bind, make_dir at 1.
    assert (Hrest : forall q, q ∈ ps -> files w !! q = None)
      by (intros q Hq; apply Hps, list_elem_of_further, Hq).
    destruct (decide (p ∈ dirs w)) as [Hin|Hin].
    + rewrite (IH w Hrest). do 2 f_equal. same_paths.
    + rewrite (Hps p) by apply list_elem_of_here.
      rewrite (IH (World (files w) ({[p]} ∪ dirs w) (log w)) Hrest).
      cbn [files dirs log]. do 2 f_equal. same_paths.
Qed.

Lemma last_elem_of {A} (l : list A) x : last l = Some x -> x ∈ l.
Proof.
  intros Hl. rewrite last_Some in Hl. destruct Hl as [l' ->].
  apply elem_of_app. right. apply list_elem_of_here.
Qed.

Lemma make_parents_ok ps w :
  (forall p, p ∈ ps -> files w !! p = None) ->
  make_parents ps w
  = (Ok tt, World (files w) (parents_made (dirs w) ps) (log w)).
Proof.
  intros Hps. unfold make_parents, parents_made.
  destruct (last ps) as [u|] eqn:Hlast; [|destruct w; reflexivity].
  unfold mbind, M_bind, path_exists.
  rewrite (Hps u (last_elem_of _ _ Hlast)).
  rewrite (bool_decide_eq_false_2 (is_Some None)) by (intros [? [=]]).
  rewrite orb_false_r.
  destruct (decide (u ∈ dirs w)) as [Hin|Hin].
  - rewrite bool_decide_eq_true_2 by exact Hin. destruct w; reflexivity.
  - rewrite bool_decide_eq_false_2 by exact Hin.
    apply for_each_make_dir_ok, Hps.
Qed.

Lemma parents_made_elem ds ps d :
  d ∈ parents_made ds ps -> d ∈ ds \/ d ∈ ps.
Proof.
  unfold parents_made. destruct (last ps) as [u|]; [|auto].
  destruct (decide (u ∈ ds)); [auto|].
  rewrite elem_of_union, elem_of_list_to_set. tauto.
Qed.

Lemma parents_made_mono ds ps : ds ⊆ parents_made ds ps.
Proof.
  unfold parents_made. destruct (last ps) as [u|]; [|reflexivity].
  destruct (decide (u ∈ ds)); [reflexivity|]. apply union_subseteq_r.
Qed.

Lemma dirs_made_elem ds m d :
  d ∈ dirs_made ds m -> d ∈ ds \/ d ∈ needed_dirs m.
Proof.
  unfold dirs_made, needed_dirs. rewrite elem_of_app.
  destruct (m_is_dir m).
  - rewrite elem_of_union, elem_of_singleton, list_elem_of_singleton.
    intros [->|Hd%parents_made_elem]; tauto.
  - intros Hd%parents_made_elem. tauto.
Qed.

Lemma dirs_made_mono ds m : ds ⊆ dirs_made ds m.
Proof.
  unfold dirs_made. pose proof (parents_made_mono ds
    (member_parents DATA_DIR (m_name m))) as Hp.
  destruct (m_is_dir m); [|exact Hp].
  etrans; [exact Hp|]. apply union_subseteq_r.
Qed.

(** The extraction of a sound member none of whose directories is a
    regular file, onto a path that is neither a directory nor the
    archive. *)
Lemma extract_member_ok zip_path m w :
  m_error m = None ->
  (forall d, d ∈ needed_dirs m -> files w !! d = None) ->
  (m_is_dir m = false ->
   (target m ∉ dirs_made (dirs w) m) /\ target m <> zip_path) ->
  extract_member DATA_DIR zip_path false m w
  = (Ok false,
     World (if m_is_dir m then files w
            else <[target m := m_written m]> (files w))
           (dirs_made (dirs w) m) (log w)).
Proof.
  intros Herr Hneed Hfile. unfold extract_member. fold (target m).
  set (parents := member_parents DATA_DIR (m_name m)).
  assert (Hparents : forall p, p ∈ parents -> files w !! p = None).
  { intros p Hp. apply Hneed. unfold needed_dirs. apply elem_of_app. auto. }
  rewrite (bind_ok _ _ _ _ _ (make_parents_ok parents w Hparents)).
  unfold dirs_made, m_error, m_written in *. fold parents in Hfile |- *.
  set (ds1 := parents_made (dirs w) parents) in *.
  assert (Hbelow : forall w1, files w1 = files w ->
            below_directory (last parents) w1 = (Ok tt, w1)).
  { intros w1 Hw1. unfold below_directory.
    destruct (last parents) as [u|] eqn:Hlast; [|reflexivity].
    rewrite Hw1, (Hparents u (last_elem_of _ _ Hlast)). reflexivity. }
  destruct (is_dir m) as [directory|e0] eqn:Edir; [|discriminate].
  pose proof (is_dir_Ok m directory Edir) as Hdir.
  rewrite (bind_ok (lift (Ok directory)) _ _ directory _ eq_refl).
  rewrite Hdir in Hfile |- *.
  destruct directory.
  - unfold mbind, M_bind, make_dir_entry. cbn [dirs].
    destruct (decide (target m ∈ ds1)) as [Hin|Hin].
    + cbn [mret M_ret]. rewrite gset_union_elem by exact Hin. reflexivity.
    + unfold mbind, M_bind. rewrite Hbelow by reflexivity.
      unfold make_dir. cbn [dirs files log].
      destruct (decide (target m ∈ ds1)); [contradiction|].
      rewrite Hneed; [reflexivity|].
      unfold needed_dirs. rewrite Hdir. apply elem_of_app. right.
      apply list_elem_of_here.
  - destruct (Hfile eq_refl) as [Hnd Hnz].
    unfold outcome_when at 1.
    destruct (m_outcome m) as [data|[e|written e]] eqn:Eo; try discriminate.
    unfold mbind, M_bind. rewrite Hbelow by reflexivity.
    unfold open_wb. cbn [dirs files log].
    destruct (decide (target m ∈ ds1)); [contradiction|].
    rewrite (proj2 (String.eqb_neq _ _) Hnz). cbn [orb outcome_when].
    rewrite Eo. simpl. rewrite alter_insert_eq. reflexivity.
Qed.

Lemma extract_members_ok zip_path ms : forall w,
  (forall m, m ∈ ms -> m_error m = None) ->
  (forall m d, m ∈ ms -> d ∈ needed_dirs m -> files w !! d = None) ->
  (forall m d m', m ∈ ms -> d ∈ needed_dirs m -> m' ∈ ms ->
     m_is_dir m' = false -> target m' <> d) ->
  (forall m, m ∈ ms -> m_is_dir m = false ->
     (target m ∉ dirs w) /\ target m <> zip_path) ->
  extract_members DATA_DIR zip_path false ms w
  = (Ok tt, World (extract_files ms (files w)) (extract_dirs ms (dirs w))
                  (log w)).
Proof.
  induction ms as [|m ms IH]; intros w Herr Hneed Hpair Hfile.
  - simpl. destruct w; reflexivity.
  - cbn [extract_members].
    assert (Hm : m ∈ m :: ms) by apply list_elem_of_here.
    rewrite (bind_ok _ _ _ _ _ (extract_member_ok zip_path m w (Herr m Hm)
               (fun d Hd => Hneed m d Hm Hd)
               (fun Hf => conj
                  (fun Hin => match dirs_made_elem _ _ _ Hin with
                              | or_introl Hd => proj1 (Hfile m Hm Hf) Hd
                              | or_intror Hd => Hpair m _ m Hm Hd Hm Hf eq_refl
                              end)
                  (proj2 (Hfile m Hm Hf))))).
    rewrite IH; cbn [files dirs log].
    + reflexivity.
    + intros m' Hm'. apply Herr, list_elem_of_further, Hm'.
    + intros m' d Hm' Hd.
      assert (Hd0 : files w !! d = None)
        by (apply (Hneed m' d); [apply list_elem_of_further, Hm' | exact Hd]).
      destruct (m_is_dir m) eqn:Hdir; [exact Hd0|].
      rewrite lookup_insert_ne; [exact Hd0|].
      apply (Hpair m' d m); auto using list_elem_of_further.
    + intros m1 d m2 Hm1 Hd Hm2.
      apply (Hpair m1 d m2); auto using list_elem_of_further.
    + intros m' Hm' Hf.
      destruct (Hfile m' (list_elem_of_further _ _ _ Hm') Hf) as [Hnd Hnz].
      split; [|exact Hnz].
      intros [Hin|Hin]%dirs_made_elem; [exact (Hnd Hin)|].
      exact (Hpair m _ m' Hm Hin (list_elem_of_further _ _ _ Hm') Hf eq_refl).
Qed.

(** A path no file entry is written to keeps its content. *)
Lemma extract_files_other ms : forall fs p,
  (forall m, m ∈ ms -> m_is_dir m = false -> target m <> p) ->
  extract_files ms fs !! p = fs !! p.
Proof.
  induction ms as [|m ms IH]; intros fs p Hp; simpl; [reflexivity|].
  rewrite IH by (intros m' Hm'; apply Hp, list_elem_of_further, Hm').
  destruct (m_is_dir m) eqn:Hdir; [reflexivity|].
  apply lookup_insert_ne, Hp; [apply list_elem_of_here | exact Hdir].
Qed.

(** What is found at a path some file entry is written to does not
    depend on the files before. *)
Lemma extract_files_written ms : forall fs1 fs2 m,
  m ∈ ms -> m_is_dir m = false ->
  extract_files ms fs1 !! target m = extract_files ms fs2 !! target m.
Proof.
  induction ms as [|m0 ms IH]; intros fs1 fs2 m Hin Hfile.
  - apply elem_of_nil in Hin. contradiction.
  - simpl.
    destruct (decide (Exists (fun m' => m_is_dir m' = false
                                        /\ target m' = target m) ms))
      as [Hex|Hno].
    + apply Exists_exists in Hex as (m' & Hm' & Hf' & Et). rewrite <- Et.
      apply IH; assumption.
    + assert (Hother : forall m', m' ∈ ms -> m_is_dir m' = false ->
                target m' <> target m).
      { intros m' Hm' Hf' Et. apply Hno, Exists_exists. eauto. }
      rewrite !extract_files_other by assumption.
      apply elem_of_cons in Hin as [->|Hin].
      * rewrite Hfile, !lookup_insert_eq. reflexivity.
      * exfalso. exact (Hother m Hin Hfile eq_refl).
Qed.

(** *** The directories of an extraction *)

Lemma extract_dirs_mono ms : forall ds, ds ⊆ extract_dirs ms ds.
Proof.
  induction ms as [|m ms IH]; intros ds; simpl; [reflexivity|].
  etrans; [apply (dirs_made_mono ds m)|apply IH].
Qed.

Lemma extract_dirs_elem ms : forall ds d,
  d ∈ extract_dirs ms ds ->
  d ∈ ds \/ exists m, m ∈ ms /\ d ∈ needed_dirs m.
Proof.
  induction ms as [|m ms IH]; intros ds d; simpl; [auto|].
  intros [[Hd|Hd]%dirs_made_elem|(m' & Hm' & Hd)]%IH.
  - auto.
  - right. exists m. split; [apply list_elem_of_here | exact Hd].
  - right. exists m'. split; [apply list_elem_of_further, Hm' | exact Hd].
Qed.

(** Every directory entry is a directory once the members are
    extracted. *)
Lemma extract_dirs_entries ms : forall ds m,
  m ∈ ms -> m_is_dir m = true -> target m ∈ extract_dirs ms ds.
Proof.
  induction ms as [|m0 ms IH]; intros ds m Hin Hdir.
  - apply elem_of_nil in Hin. contradiction.
  - apply elem_of_cons in Hin as [->|Hin]; simpl; [|apply IH; assumption].
    apply (extract_dirs_mono ms). unfold dirs_made. rewrite Hdir.
    apply elem_of_union_l, elem_of_singleton. reflexivity.
Qed.

(** A member whose directories are there adds none. *)
Lemma dirs_made_settled ds m : settled ds m -> dirs_made ds m = ds.
Proof.
  intros [Hu Ht]. unfold dirs_made, parents_made.
  assert (Hp : match last (member_parents DATA_DIR (m_name m)) with
               | Some upperdirs =>
                   if decide (upperdirs ∈ ds) then ds
                   else list_to_set (member_parents DATA_DIR (m_name m)) ∪ ds
               | None => ds
               end = ds).
  { destruct (last _) as [u|]; [|reflexivity].
    destruct (decide (u ∈ ds)) as [|Hn]; [reflexivity|].
    exfalso. apply Hn, Hu. reflexivity. }
  rewrite Hp. destruct (m_is_dir m); [|reflexivity].
  apply gset_union_elem, Ht. reflexivity.
Qed.

Lemma settled_dirs_made ds m : settled (dirs_made ds m) m.
Proof.
  unfold settled, dirs_made, parents_made. split.
  - intros u Hu. rewrite Hu.
    assert (Hin : u ∈ if decide (u ∈ ds) then ds
                      else list_to_set (member_parents DATA_DIR (m_name m)) ∪ ds).
    { destruct (decide (u ∈ ds)) as [Hin|_]; [exact Hin|].
      apply elem_of_union_l, elem_of_list_to_set, last_elem_of, Hu. }
    destruct (m_is_dir m); [apply elem_of_union_r|]; exact Hin.
  - intros ->. apply elem_of_union_l, elem_of_singleton. reflexivity.
Qed.

Lemma settled_mono ds ds' m : ds ⊆ ds' -> settled ds m -> settled ds' m.
Proof.
  intros Hsub [Hu Ht]. split.
  - intros u Hlast. apply Hsub, Hu, Hlast.
  - intros Hdir. apply Hsub, Ht, Hdir.
Qed.

Lemma extract_dirs_settled ms : forall ds,
  (forall m, m ∈ ms -> settled ds m) -> extract_dirs ms ds = ds.
Proof.
  induction ms as [|m ms IH]; intros ds Hs; simpl; [reflexivity|].
  rewrite dirs_made_settled by apply Hs, list_elem_of_here.
  apply IH. intros m' Hm'. apply Hs, list_elem_of_further, Hm'.
Qed.

Lemma settled_extract_dirs ms : forall ds m,
  m ∈ ms -> settled (extract_dirs ms ds) m.
Proof.
  induction ms as [|m0 ms IH]; intros ds m Hin.
  - apply elem_of_nil in Hin. contradiction.
  - apply elem_of_cons in Hin as [->|Hin]; simpl; [|apply IH, Hin].
    eapply settled_mono; [apply extract_dirs_mono|apply settled_dirs_made].
Qed.

(** Extracting the same members again adds no directory. *)
Lemma extract_dirs_again ms ds ds' :
  extract_dirs ms ds ⊆ ds' -> extract_dirs ms ds' = ds'.
Proof.
  intros Hsub. apply extract_dirs_settled. intros m Hm.
  eapply settled_mono; [exact Hsub|apply settled_extract_dirs, Hm].
Qed.

(** *** os.path *)

Lemma has_sep_append_sep a f : has_sep (a +:+ String "/" f) = true.
Proof.
  induction a as [|c a IH]; simpl; [reflexivity|].
  rewrite IH. apply orb_true_r.
Qed.

Lemma basename_no_sep f : has_sep f = false -> basename f = f.
Proof.
  destruct f as [|c f]; simpl; [reflexivity|].
  destruct (is_sep c); [discriminate|]. simpl. intros ->. reflexivity.
Qed.

Lemma basename_append_sep a f :
  has_sep f = false -> basename (a +:+ String "/" f) = f.
Proof.
  intros Hf. induction a as [|c a IH]; simpl.
  - rewrite Hf. reflexivity.
  - rewrite has_sep_append_sep. exact IH.
Qed.

Lemma endswith_sep_split a :
  endswith_sep a = true -> exists a', a = a' +:+ "/".
Proof.
  induction a as [|c a IH]; simpl; [discriminate|].
  destruct a as [|c' a].
  - unfold is_sep. intros Hc%Ascii.eqb_eq. subst c. exists "". reflexivity.
  - intros Ha. destruct (IH Ha) as [a' Ea]. exists (String c a').
    rewrite Ea. reflexivity.
Qed.

Lemma string_append_assoc a b c : (a +:+ b) +:+ c = a +:+ (b +:+ c).
Proof.
  induction a as [|x a IH]; [reflexivity|].
  change (String x ((a +:+ b) +:+ c) = String x (a +:+ (b +:+ c))).
  rewrite IH. reflexivity.
Qed.

(** X9: [os.path.basename(os.path.join(d, f))] is [f] for a name without a
    separator, whatever the directory [d]. *)
Theorem basename_os_path_join d f :
  has_sep f = false -> basename (os_path_join d f) = f.
Proof.
  intros Hf. unfold os_path_join. rewrite (startswith_sep_has_sep _ Hf).
  destruct d as [|c d]; [apply basename_no_sep, Hf|].
  cbn [str_truthy negb orb].
  destruct (endswith_sep (String c d)) eqn:Hd.
  - destruct (endswith_sep_split _ Hd) as [a' ->].
    rewrite string_append_assoc. apply basename_append_sep, Hf.
  - apply basename_append_sep, Hf.
Qed.

Lemma str_truthy_longer d s :
  (String.length d < String.length s)%nat -> str_truthy s = true.
Proof. destruct s; simpl; [lia|reflexivity]. Qed.

(** *** download_file *)

(** X10: [download_file] returns a path only when the request was answered
    with a status that [raise_for_status] accepts and the whole body
    arrived; the path is not empty, lies in [DATA_DIR] under the last
    component of the path of the URL, and holds the body. *)
Theorem download_file_success_means_complete url w p :
  (download_file url w).1 = Ok (Some p) ->
  exists path r,
    urlparse_path url = Ok path /\ requests_get url = GetResponse r
    /\ ~ (400 <= status_code r < 600) /\ body_error r = None
    /\ p = os_path_join DATA_DIR (basename path)
    /\ str_truthy p = true
    /\ files (download_file url w).2 = <[p := concat (body r)]> (files w).
Proof.
  rewrite download_file_spec. cbv zeta.
  destruct (files w !! DATA_DIR); [discriminate|].
  destruct (urlparse_path url) as [path|e]; [|discriminate].
  destruct (str_truthy (basename path)) eqn:Hname; [|discriminate].
  destruct (requests_get url) as [e|r]; [discriminate|].
  destruct ((400 <=? status_code r) && (status_code r <? 600)) eqn:Hs;
    [discriminate|].
  destruct (decide (_ ∈ _)); [discriminate|].
  destruct (body_error r) eqn:He; [discriminate|].
  simpl. intros [= <-]. exists path, r.
  repeat split; auto; try lia.
  apply (str_truthy_longer DATA_DIR), os_path_join_longer;
    auto using has_sep_basename.
Qed.

(** X11: Whatever the outcome, [download_file] changes at most the file
    named after the URL, removes no file, adds at most [DATA_DIR] to
    the directories, and only appends to the log. *)
Theorem download_file_touches_one_path url w :
  (forall p, files (download_file url w).2 !! p <> files w !! p ->
     exists path, urlparse_path url = Ok path
       /\ p = os_path_join DATA_DIR (basename path))
  /\ (forall p, is_Some (files w !! p) ->
        is_Some (files (download_file url w).2 !! p))
  /\ (dirs (download_file url w).2 = dirs w
      \/ dirs (download_file url w).2 = {[DATA_DIR]} ∪ dirs w)
  /\ exists l, log (download_file url w).2 = log w ++ l.
Proof.
  rewrite download_file_spec. cbv zeta.
  destruct (files w !! DATA_DIR) eqn:Hdir; simpl.
  { repeat split; try tauto; eauto. }
  destruct (urlparse_path url) as [path|e]; simpl.
  2:{ repeat split; try tauto; eauto. }
  destruct (str_truthy (basename path)); simpl.
  2:{ repeat split; try tauto; eauto. }
  destruct (requests_get url) as [e|r]; simpl.
  { split; [tauto|]. split; [tauto|]. split; [tauto|].
    eexists. rewrite <- app_assoc. reflexivity. }
  destruct ((400 <=? status_code r) && (status_code r <? 600)); simpl.
  { split; [tauto|]. split; [tauto|]. split; [tauto|].
    eexists. rewrite <- app_assoc. reflexivity. }
  destruct (decide (_ ∈ _)); simpl.
  { split; [tauto|]. split; [tauto|]. split; [tauto|].
    eexists. rewrite <- app_assoc. reflexivity. }
  assert (Hfiles : forall p,
            <[os_path_join DATA_DIR (basename path) := concat (body r)]>
              (files w) !! p <> files w !! p ->
            exists path0, Ok path = Ok path0
              /\ p = os_path_join DATA_DIR (basename path0)).
  { intros p Hp. exists path. split; [reflexivity|].
    destruct (decide (os_path_join DATA_DIR (basename path) = p)) as [E|E];
      [auto|]. rewrite lookup_insert_ne in Hp by exact E. contradiction. }
  destruct (body_error r); simpl;
    (split; [exact Hfiles|]; split;
     [intros p Hp; apply lookup_insert_is_Some'; auto|];
     split; [tauto|]; eexists; rewrite <- app_assoc; reflexivity).
Qed.

(** *** unzip_file *)

(** What [extractable] asks, member by member. *)
Lemma extractable_spec zip_path ms w :
  extractable zip_path ms w ->
  (forall m, m ∈ ms -> m_error m = None)
  /\ (forall m d, m ∈ ms -> d ∈ needed_dirs m ->
        files w !! d = None /\ d <> zip_path)
  /\ (forall m d m', m ∈ ms -> d ∈ needed_dirs m -> m' ∈ ms ->
        m_is_dir m' = false -> target m' <> d)
  /\ (forall m, m ∈ ms -> m_is_dir m = false ->
        (target m ∉ dirs w) /\ target m <> DATA_DIR /\ target m <> zip_path).
Proof.
  unfold extractable. rewrite Forall_forall. intros Hall.
  split; [|split; [|split]].
  - intros m Hm. apply (Hall m Hm).
  - intros m d Hm Hd. destruct (Hall m Hm) as (_ & Hn & _).
    rewrite Forall_forall in Hn. destruct (Hn d Hd) as (? & ? & _). auto.
  - intros m d m' Hm Hd Hm'. destruct (Hall m Hm) as (_ & Hn & _).
    rewrite Forall_forall in Hn. destruct (Hn d Hd) as (_ & _ & Hp).
    rewrite Forall_forall in Hp. apply Hp, Hm'.
  - intros m Hm. apply (Hall m Hm).
Qed.

(** The run of [unzip_file] on a sound archive. *)
Lemma unzip_file_run zip_path w content ms :
  files w !! DATA_DIR = None ->
  files w !! zip_path = Some content ->
  zip_members content = Some ms ->
  extractable zip_path ms w ->
  unzip_file zip_path w
  = (Ok true,
     World (delete zip_path (extract_files ms (files w)))
           (extract_dirs ms ({[DATA_DIR]} ∪ dirs w))
           (log w ++ [InfoExtracting zip_path DATA_DIR;
                      InfoExtracted zip_path; InfoDeleted zip_path])).
Proof.
  intros Hdir Hzip Hms (Herr & Hneed & Hpair & Hfile)%extractable_spec.
  rewrite unzip_file_spec, Hdir, Hzip, Hms. cbv zeta. unfold extractall.
  rewrite extract_members_ok; cbn [files dirs log].
  - destruct (extract_files_is_Some ms (files w) zip_path) as [c Hc];
      [rewrite Hzip; eauto|].
    rewrite Hc, <- app_assoc. reflexivity.
  - exact Herr.
  - intros m d Hm Hd. apply (Hneed m d Hm Hd).
  - exact Hpair.
  - intros m Hm Hf. destruct (Hfile m Hm Hf) as (Hnd & Hne & Hnz).
    split; [|exact Hnz].
    intros [Hin%elem_of_singleton|Hin]%elem_of_union; contradiction.
Qed.

(** X12: When the archive is a zip container whose members are all sound
    and nothing stands in the way of their extraction (no directory that
    is needed is a regular file or the target of a file entry, no file
    entry is written onto a directory or onto the archive itself),
    [unzip_file] returns [True] after the lines "Extracting",
    "Successfully extracted" and "Deleted zip file"; the archive is
    gone, every file entry is present, every directory entry is a
    directory, and the files that are neither the archive nor the target
    of a file entry are as before. *)
Theorem unzip_file_succeeds zip_path w content ms :
  files w !! DATA_DIR = None ->
  files w !! zip_path = Some content ->
  zip_members content = Some ms ->
  extractable zip_path ms w ->
  let w' := (unzip_file zip_path w).2 in
  (unzip_file zip_path w).1 = Ok true
  /\ log w' = log w ++ [InfoExtracting zip_path DATA_DIR;
                        InfoExtracted zip_path; InfoDeleted zip_path]
  /\ files w' !! zip_path = None
  /\ (forall m, m ∈ ms -> m_is_dir m = false ->
        is_Some (files w' !! target m))
  /\ (forall m, m ∈ ms -> m_is_dir m = true -> target m ∈ dirs w')
  /\ (forall p, (forall m, m ∈ ms -> m_is_dir m = false -> target m <> p) ->
        p <> zip_path -> files w' !! p = files w !! p)
  /\ files w' = delete zip_path (extract_files ms (files w)).
Proof.
  intros Hdir Hzip Hms Hex w'. subst w'.
  rewrite (unzip_file_run zip_path w content ms) by assumption.
  apply extractable_spec in Hex as (_ & _ & _ & Hfile).
  cbn [fst snd files dirs log].
  split; [reflexivity|]. split; [reflexivity|].
  split; [apply lookup_delete_eq|]. split; [|split; [|split]].
  - intros m Hm Hf. rewrite lookup_delete_ne by (apply not_eq_sym, Hfile; auto).
    apply extract_files_targets; assumption.
  - intros m Hm Hd. apply extract_dirs_entries; assumption.
  - intros p Hp Hne. rewrite lookup_delete_ne by auto.
    apply extract_files_other, Hp.
  - reflexivity.
Qed.

(** X13: Without a file at [zip_path], [unzip_file] returns [False] with the
    line "Error extracting zip file" and leaves every file as it was. *)
Theorem unzip_file_missing_archive zip_path w :
  files w !! zip_path = None ->
  (unzip_file zip_path w).1 = Ok false
  /\ files (unzip_file zip_path w).2 = files w
  /\ last (log (unzip_file zip_path w).2) = Some (ErrorExtracting OSError).
Proof.
  intros Hzip. rewrite unzip_file_spec, Hzip. cbv zeta.
  destruct (files w !! DATA_DIR); simpl;
    (split; [reflexivity|]; split; [reflexivity|]; apply last_snoc).
Qed.

(** Whatever the outcome, [unzip_file] removes no file but the archive
    it was given. *)
Lemma unzip_file_keeps_other_files zip_path w p :
  p <> zip_path -> is_Some (files w !! p) ->
  is_Some (files (unzip_file zip_path w).2 !! p).
Proof.
  intros Hp Hs. rewrite unzip_file_spec. cbv zeta.
  destruct (files w !! DATA_DIR); [exact Hs|].
  destruct (files w !! zip_path) as [content|]; [|exact Hs].
  destruct (zip_members content) as [ms|]; [|exact Hs].
  set (w1 := World _ _ _).
  destruct (extractall_frame zip_path ms w1) as (_ & Hkeep & _).
  specialize (Hkeep p Hs).
  destruct (extractall DATA_DIR zip_path ms w1) as [[[]|e] w2]; simpl in *.
  - destruct (files w2 !! zip_path); simpl; [|exact Hkeep].
    rewrite lookup_delete_ne by auto. exact Hkeep.
  - exact Hkeep.
Qed.

(** [unzip_file] returns [True] only with the archive removed. *)
Lemma unzip_file_true_removes zip_path w :
  (unzip_file zip_path w).1 = Ok true ->
  files (unzip_file zip_path w).2 !! zip_path = None.
Proof.
  rewrite unzip_file_spec. cbv zeta.
  destruct (files w !! DATA_DIR); [discriminate|].
  destruct (files w !! zip_path) as [content|]; [|discriminate].
  destruct (zip_members content) as [ms|]; [|discriminate].
  destruct (extractall DATA_DIR zip_path ms _) as [[[]|e] w2]; [|discriminate].
  destruct (files w2 !! zip_path); [|discriminate].
  intros _. apply lookup_delete_eq.
Qed.

(** *** download_and_unzip *)

Lemma download_and_unzip_eq url w :
  download_and_unzip url w
  = match download_file url w with
    | (Ok (Some p), w1) =>
        if str_truthy p then
          match unzip_file p w1 with
          | (Ok true, w2) => logger InfoCompleted w2
          | (Ok false, w2) => logger ErrorFailedUnzip w2
          | (Raise e, w2) => (Raise e, w2)
          end
        else logger ErrorFailedDownload w1
    | (Ok None, w1) => logger ErrorFailedDownload w1
    | (Raise e, w1) => (Raise e, w1)
    end.
Proof.
  unfold download_and_unzip, mbind, M_bind.
  destruct (download_file url w) as [[[p|]|e] w1]; try reflexivity.
  destruct (str_truthy p); [|reflexivity].
  destruct (unzip_file p w1) as [[[]|e] w2]; reflexivity.
Qed.

(** A path returned by [download_file] is the non-empty output path. *)
Lemma download_file_returned_path url w p :
  (download_file url w).1 = Ok (Some p) ->
  str_truthy p = true
  /\ exists path, urlparse_path url = Ok path
       /\ p = os_path_join DATA_DIR (basename path).
Proof.
  rewrite download_file_spec. cbv zeta.
  destruct (files w !! DATA_DIR); [discriminate|].
  destruct (urlparse_path url) as [path|e]; [|discriminate].
  destruct (str_truthy (basename path)) eqn:Hname; [|discriminate].
  destruct (requests_get url) as [e|r]; [discriminate|].
  destruct ((400 <=? status_code r) && (status_code r <? 600));
    [discriminate|].
  destruct (decide (_ ∈ _)); [discriminate|].
  destruct (body_error r); [discriminate|].
  simpl. intros [= <-]. split; [|eauto].
  apply (str_truthy_longer DATA_DIR), os_path_join_longer;
    auto using has_sep_basename.
Qed.

Lemma download_file_keeps_files url w p :
  is_Some (files w !! p) -> is_Some (files (download_file url w).2 !! p).
Proof.
  intros Hp. rewrite download_file_spec. cbv zeta.
  destruct (files w !! DATA_DIR); [exact Hp|].
  destruct (urlparse_path url) as [path|e]; [|exact Hp].
  destruct (str_truthy (basename path)); [|exact Hp].
  destruct (requests_get url) as [e|r]; [exact Hp|].
  destruct ((400 <=? status_code r) && (status_code r <? 600)); [exact Hp|].
  destruct (decide (_ ∈ _)); [exact Hp|].
  destruct (body_error r); simpl; apply lookup_insert_is_Some'; auto.
Qed.

(** Writing the archive itself does not put anything in the way of its
    extraction. *)
Lemma extractable_after_download zip_path ms w content l :
  extractable zip_path ms w ->
  extractable zip_path ms
    (World (<[zip_path := content]> (files w)) ({[DATA_DIR]} ∪ dirs w) l).
Proof.
  unfold extractable. intros Hall. eapply Forall_impl; [exact Hall|].
  cbn beta. intros m (Herr & Hneed & Hfile). split; [exact Herr|]. split.
  - eapply Forall_impl; [exact Hneed|]. cbn beta.
    intros d (Hd & Hne & Hp). cbn [files].
    rewrite lookup_insert_ne by auto. auto.
  - intros Hf. destruct (Hfile Hf) as (Hnd & Hnt & Hnz). cbn [dirs].
    split; [|auto].
    intros [Hin%elem_of_singleton|Hin]%elem_of_union; contradiction.
Qed.

(** The run of [download_and_unzip] on a URL that answers with a sound
    archive. *)
Lemma download_and_unzip_run url w path r ms :
  files w !! DATA_DIR = None ->
  urlparse_path url = Ok path ->
  str_truthy (basename path) = true ->
  requests_get url = GetResponse r ->
  ~ (400 <= status_code r < 600) ->
  body_error r = None ->
  zip_members (concat (body r)) = Some ms ->
  os_path_join DATA_DIR (basename path) ∉ dirs w ->
  extractable (os_path_join DATA_DIR (basename path)) ms w ->
  let output_path := os_path_join DATA_DIR (basename path) in
  download_and_unzip url w
  = (Ok tt,
     World (delete output_path
              (extract_files ms (<[output_path := concat (body r)]> (files w))))
           (extract_dirs ms ({[DATA_DIR]} ∪ dirs w))
           (log w ++ [InfoDownloading url output_path;
                      InfoDownloaded (basename path);
                      InfoExtracting output_path DATA_DIR;
                      InfoExtracted output_path;
                      InfoDeleted output_path;
                      InfoCompleted])).
Proof.
  intros Hdir Hpath Hname Hget Hst He Hms Hout Hex output_path.
  assert (Hne : output_path <> DATA_DIR)
    by (apply os_path_join_ne; auto using has_sep_basename).
  rewrite download_and_unzip_eq.
  rewrite (download_file_response url w path r) by assumption.
  rewrite He. fold output_path.
  rewrite (str_truthy_longer DATA_DIR output_path)
    by (apply os_path_join_longer; auto using has_sep_basename).
  rewrite (unzip_file_run output_path _ (concat (body r)) ms);
    cbn [files dirs log]; try assumption.
  - unfold logger. cbn [files dirs log].
    rewrite (assoc_L (∪)), union_idemp_L, <- !app_assoc. reflexivity.
  - rewrite lookup_insert_ne by exact Hne. exact Hdir.
  - apply lookup_insert_eq.
  - apply extractable_after_download, Hex.
Qed.

(** X14: A download of a sound archive followed by its extraction, when
    nothing stands in the way of either: the run ends with "completed",
    every file entry is in the output directory, every directory entry
    is a directory, the archive is gone, and the files that are neither
    the archive nor the target of a file entry are as before. *)
Theorem download_and_unzip_succeeds url w path r ms :
  files w !! DATA_DIR = None ->
  urlparse_path url = Ok path ->
  str_truthy (basename path) = true ->
  requests_get url = GetResponse r ->
  ~ (400 <= status_code r < 600) ->
  body_error r = None ->
  zip_members (concat (body r)) = Some ms ->
  os_path_join DATA_DIR (basename path) ∉ dirs w ->
  extractable (os_path_join DATA_DIR (basename path)) ms w ->
  let output_path := os_path_join DATA_DIR (basename path) in
  let w' := (download_and_unzip url w).2 in
  (download_and_unzip url w).1 = Ok tt
  /\ last (log w') = Some InfoCompleted
  /\ files w' !! output_path = None
  /\ (forall m, m ∈ ms -> m_is_dir m = false ->
        is_Some (files w' !! target m))
  /\ (forall m, m ∈ ms -> m_is_dir m = true -> target m ∈ dirs w')
  /\ (forall p, (forall m, m ∈ ms -> m_is_dir m = false -> target m <> p) ->
        p <> output_path -> files w' !! p = files w !! p)
  /\ files w'
     = delete output_path
         (extract_files ms (<[output_path := concat (body r)]> (files w))).
Proof.
  intros Hdir Hpath Hname Hget Hst He Hms Hout Hex output_path w'.
  subst w'.
  rewrite (download_and_unzip_run url w path r ms) by assumption.
  apply extractable_spec in Hex as (_ & _ & _ & Hfile).
  fold output_path in Hfile |- *. cbn [fst snd files dirs log].
  split; [reflexivity|]. split; [rewrite last_app; reflexivity|].
  split; [apply lookup_delete_eq|]. split; [|split; [|split]].
  - intros m Hm Hf. rewrite lookup_delete_ne by (apply not_eq_sym, Hfile; auto).
    apply extract_files_targets; assumption.
  - intros m Hm Hd. apply extract_dirs_entries; assumption.
  - intros p Hp Hne. rewrite lookup_delete_ne by auto.
    rewrite extract_files_other by assumption.
    apply lookup_insert_ne. auto.
  - reflexivity.
Qed.

(** X15: Running [download_and_unzip] a second time on the same URL, with
    the same answer, completes again: the second run too ends with the
    line "completed", and it leaves the files and the directories as the
    first run left them. *)
Theorem download_and_unzip_twice url w path r ms :
  files w !! DATA_DIR = None ->
  urlparse_path url = Ok path ->
  str_truthy (basename path) = true ->
  requests_get url = GetResponse r ->
  ~ (400 <= status_code r < 600) ->
  body_error r = None ->
  zip_members (concat (body r)) = Some ms ->
  os_path_join DATA_DIR (basename path) ∉ dirs w ->
  extractable (os_path_join DATA_DIR (basename path)) ms w ->
  let w1 := (download_and_unzip url w).2 in
  let w2 := (download_and_unzip url w1).2 in
  last (log w1) = Some InfoCompleted
  /\ last (log w2) = Some InfoCompleted
  /\ log w2 = log w1 ++ drop (length (log w)) (log w1)
  /\ files w2 = files w1 /\ dirs w2 = dirs w1.
Proof.
  intros Hdir Hpath Hname Hget Hst He Hms Hout Hex w1 w2.
  set (output_path := os_path_join DATA_DIR (basename path)) in *.
  assert (Hne : output_path <> DATA_DIR)
    by (apply os_path_join_ne; auto using has_sep_basename).
  pose proof (extractable_spec _ _ _ Hex) as (Herr & Hneed & Hpair & Hfile).
  subst w2 w1.
  rewrite (download_and_unzip_run url w path r ms) by assumption.
  fold output_path. cbn [snd].
  set (fs1 := delete output_path
                (extract_files ms (<[output_path := concat (body r)]> (files w)))).
  set (ds1 := extract_dirs ms ({[DATA_DIR]} ∪ dirs w)).
  assert (Hds1 : forall d, d ∈ ds1 ->
            d = DATA_DIR \/ d ∈ dirs w \/ exists m, m ∈ ms /\ d ∈ needed_dirs m).
  { intros d [[Hd%elem_of_singleton|Hd]%elem_of_union|Hd]%extract_dirs_elem;
      auto. }
  assert (Hfs1 : forall d, d <> output_path ->
            (forall m, m ∈ ms -> m_is_dir m = false -> target m <> d) ->
            fs1 !! d = files w !! d).
  { intros d Hd Hother. unfold fs1. rewrite lookup_delete_ne by auto.
    rewrite extract_files_other by assumption.
    apply lookup_insert_ne. auto. }
  rewrite (download_and_unzip_run url _ path r ms); cbn [files dirs log];
    try assumption.
  - fold output_path. cbn [fst snd files dirs log].
    split; [rewrite last_app; reflexivity|].
    split; [rewrite last_app; reflexivity|]. split; [|split].
    + rewrite drop_app_length. reflexivity.
    + apply map_eq. intros p. unfold fs1.
      destruct (decide (p = output_path)) as [->|Hp].
      { rewrite !lookup_delete_eq. reflexivity. }
      rewrite !lookup_delete_ne by auto.
      destruct (decide (Exists (fun m => m_is_dir m = false /\ target m = p) ms))
        as [Hexs|Hno].
      * apply Exists_exists in Hexs as (m & Hm & Hf & <-).
        apply extract_files_written; assumption.
      * assert (Hother : forall m, m ∈ ms -> m_is_dir m = false -> target m <> p).
        { intros m Hm Hf Et. apply Hno, Exists_exists. eauto. }
        rewrite !extract_files_other by assumption.
        rewrite !lookup_insert_ne by auto.
        rewrite lookup_delete_ne by auto.
        rewrite extract_files_other by assumption.
        apply lookup_insert_ne. auto.
    + rewrite (gset_union_elem DATA_DIR ds1).
      * apply (extract_dirs_again ms ({[DATA_DIR]} ∪ dirs w)). reflexivity.
      * apply (extract_dirs_mono ms), elem_of_union_l, elem_of_singleton.
        reflexivity.
  - rewrite Hfs1; [exact Hdir|auto|].
    intros m Hm Hf. apply (Hfile m Hm Hf).
  - fold output_path.
    intros [->|[Hin|(m & Hm & Hin)]]%Hds1; [congruence|contradiction|].
    destruct (Hneed m _ Hm Hin) as [_ Hnz]. congruence.
  - fold output_path. unfold extractable. apply Forall_forall. intros m Hm.
    split; [apply Herr, Hm|]. split.
    + apply Forall_forall. intros d Hd.
      destruct (Hneed m d Hm Hd) as [Hnone Hnz].
      split; [|split; [exact Hnz|]].
      * cbn [files]. rewrite Hfs1; [exact Hnone|exact Hnz|].
        intros m' Hm' Hf'. apply (Hpair m d m'); assumption.
      * apply Forall_forall. intros m' Hm' Hf'.
        apply (Hpair m d m'); assumption.
    + intros Hf. destruct (Hfile m Hm Hf) as (Hnd & Hnt & Hnz). cbn [dirs].
      split; [|auto].
      intros [E|[Hin|(m' & Hm' & Hin)]]%Hds1; [contradiction..|].
      exact (Hpair m' _ m Hm' Hin Hm Hf eq_refl).
Qed.

(** X16: A file that was there before [download_and_unzip] and is gone after
    it is the archive this run downloaded: no other file is removed. *)
Theorem download_and_unzip_removes_only_its_archive url w p :
  is_Some (files w !! p) ->
  files (download_and_unzip url w).2 !! p = None ->
  exists path, urlparse_path url = Ok path
    /\ p = os_path_join DATA_DIR (basename path).
Proof.
  intros Hp. pose proof (download_file_keeps_files url w p Hp) as Hp1.
  pose proof (download_file_returned_path url w) as Hret.
  rewrite download_and_unzip_eq.
  destruct (download_file url w) as [[[p0|]|e] w1]; cbn [fst snd] in *.
  - destruct (Hret p0 eq_refl) as [Ht Hpath]. rewrite Ht.
    destruct (decide (p = p0)) as [->|Hne]; [intros _; exact Hpath|].
    pose proof (unzip_file_keeps_other_files p0 w1 p Hne Hp1) as Hp2.
    destruct (unzip_file p0 w1) as [[[]|e] w2]; cbn [fst snd files logger] in *;
      intros Hnone; rewrite Hnone in Hp2; destruct Hp2 as [? [=]].
  - cbn [snd files logger]. intros Hnone. rewrite Hnone in Hp1.
    destruct Hp1 as [? [=]].
  - intros Hnone. rewrite Hnone in Hp1. destruct Hp1 as [? [=]].
Qed.

(** X17: [download_and_unzip] never raises, and its last log line tells the
    outcome: "completed" only when a path was downloaded and the archive
    at it extracted and removed, "failed to unzip" when the download
    returned a path and [unzip_file] returned [False], "failed to
    download" when [download_file] returned [None]. *)
Theorem download_and_unzip_reports_outcome url w :
  exists w', download_and_unzip url w = (Ok tt, w')
    /\ ((last (log w') = Some InfoCompleted
         /\ exists p, (download_file url w).1 = Ok (Some p)
              /\ (unzip_file p (download_file url w).2).1 = Ok true
              /\ files w' !! p = None)
        \/ (last (log w') = Some ErrorFailedUnzip
            /\ exists p, (download_file url w).1 = Ok (Some p)
                 /\ (unzip_file p (download_file url w).2).1 = Ok false)
        \/ (last (log w') = Some ErrorFailedDownload
            /\ (download_file url w).1 = Ok None)).
Proof.
  rewrite download_and_unzip_eq.
  destruct (safe_download_file url w) as [a Ha].
  pose proof (download_file_returned_path url w) as Hret.
  destruct (download_file url w) as [[[p|]|e] w1]; cbn [fst snd] in *;
    [| |discriminate].
  - destruct (Hret p eq_refl) as [Ht _]. rewrite Ht.
    destruct (safe_unzip_file p w1) as [b Hb].
    pose proof (unzip_file_true_removes p w1) as Hrm.
    destruct (unzip_file p w1) as [[[]|e] w2] eqn:Hu; cbn [fst snd] in *;
      [| |discriminate].
    + eexists. split; [reflexivity|]. left.
      split; [apply last_snoc|]. exists p. rewrite Hu.
      split; [reflexivity|]. split; [reflexivity|]. apply Hrm. reflexivity.
    + eexists. split; [reflexivity|]. right. left.
      split; [apply last_snoc|]. exists p. rewrite Hu. split; reflexivity.
  - eexists. split; [reflexivity|]. right. right.
    split; [apply last_snoc|reflexivity].
Qed.

(** X18: A stream that breaks after the headers: the part received stays at
    the output path and is not handed to [unzip_file]. *)
Theorem download_and_unzip_keeps_partial_file url w path r e :
  files w !! DATA_DIR = None ->
  urlparse_path url = Ok path ->
  str_truthy (basename path) = true ->
  requests_get url = GetResponse r ->
  ~ (400 <= status_code r < 600) ->
  body_error r = Some e ->
  os_path_join DATA_DIR (basename path) ∉ dirs w ->
  let output_path := os_path_join DATA_DIR (basename path) in
  download_and_unzip url w
  = (Ok tt,
     World (<[output_path := concat (body r)]> (files w))
           ({[DATA_DIR]} ∪ dirs w)
           (log w ++ [InfoDownloading url output_path;
                      download_error_record e;
                      ErrorFailedDownload])).
Proof.
  intros Hdir Hpath Hname Hget Hst He Hout output_path.
  rewrite download_and_unzip_eq.
  rewrite (download_file_response url w path r) by assumption.
  rewrite He. fold output_path. unfold logger. cbn [files dirs log].
  rewrite <- app_assoc. reflexivity.
Qed.

(** X19: A complete download whose body is no zip container (an error page
    served with status 200, say): the file stays in the output
    directory under the name of the archive. *)
Theorem download_and_unzip_keeps_invalid_archive url w path r :
  files w !! DATA_DIR = None ->
  urlparse_path url = Ok path ->
  str_truthy (basename path) = true ->
  requests_get url = GetResponse r ->
  ~ (400 <= status_code r < 600) ->
  body_error r = None ->
  zip_members (concat (body r)) = None ->
  os_path_join DATA_DIR (basename path) ∉ dirs w ->
  let output_path := os_path_join DATA_DIR (basename path) in
  download_and_unzip url w
  = (Ok tt,
     World (<[output_path := concat (body r)]> (files w))
           ({[DATA_DIR]} ∪ dirs w)
           (log w ++ [InfoDownloading url output_path;
                      InfoDownloaded (basename path);
                      InfoExtracting output_path DATA_DIR;
                      ErrorInvalidZip BadZipFile;
                      ErrorFailedUnzip])).
Proof.
  intros Hdir Hpath Hname Hget Hst He Hms Hout output_path.
  assert (Hne : output_path <> DATA_DIR)
    by (apply os_path_join_ne; auto using has_sep_basename).
  rewrite download_and_unzip_eq.
  rewrite (download_file_response url w path r) by assumption.
  rewrite He. fold output_path.
  rewrite (str_truthy_longer DATA_DIR output_path)
    by (apply os_path_join_longer; auto using has_sep_basename).
  rewrite unzip_file_spec. cbn [files dirs log].
  rewrite lookup_insert_ne by exact Hne. rewrite Hdir.
  cbv zeta. cbn [files dirs log].
  rewrite lookup_insert_eq, Hms. unfold logger. cbn [files dirs log].
  rewrite (assoc_L (∪)), union_idemp_L, <- !app_assoc. reflexivity.
Qed.

(** X20: When the path of the output directory is taken by a regular file,
    both stages fail with an [OSError] caught by their handlers, and no
    file, directory or earlier log line is touched. *)
Theorem output_directory_taken_by_a_file url zip_path w content :
  files w !! DATA_DIR = Some content ->
  download_file url w
  = (Ok None,
     World (files w) (dirs w) (log w ++ [ErrorUnexpectedDownload OSError]))
  /\ unzip_file zip_path w
     = (Ok false,
        World (files w) (dirs w) (log w ++ [ErrorExtracting OSError]))
  /\ download_and_unzip url w
     = (Ok tt,
        World (files w) (dirs w)
              (log w ++ [ErrorUnexpectedDownload OSError; ErrorFailedDownload])).
Proof.
  intros Hdir.
  assert (Hd : download_file url w
               = (Ok None,
                  World (files w) (dirs w)
                        (log w ++ [ErrorUnexpectedDownload OSError])))
    by (rewrite download_file_spec, Hdir; reflexivity).
  split; [exact Hd|]. split.
  - rewrite unzip_file_spec, Hdir. reflexivity.
  - rewrite download_and_unzip_eq, Hd. unfold logger. cbn [files dirs log].
    rewrite <- app_assoc. reflexivity.
Qed.

(** *** main *)

(** X2: [main] returns normally whenever it does not need the most recent
    date (a non-empty [--url]) or the current month is not January of
    year 1: no failure of a download or an extraction reaches the
    caller. *)
Theorem main_returns_normally a today w :
  Date.valid today = true ->
  (truthy_url (args_url a) = None -> year today <> 1 \/ month today <> 1) ->
  exists w', main a today w = (Ok tt, w').
Proof.
  intros V Hne.
  destruct (truthy_url (args_url a)) as [u|] eqn:Hu.
  - unfold main. rewrite Hu.
    destruct (safe_download_and_unzip u w) as [[] Hs].
    destruct (download_and_unzip u w) as [r w']. simpl in Hs. subst r. eauto.
  - destruct (get_most_recent_date_spec today V (Hne eq_refl))
      as (d & Hd & _).
    destruct (args_backfill a) eqn:Hb.
    + rewrite (main_backfill_eq a today w d Hu Hb Hd).
      rewrite (backfill_periods today d V Hd).
      unfold for_generator. cbn [fst snd].
      set (w0 := World _ _ _).
      destruct (backfill_loop_processed
                  (token_of_ordinal <$> seqZ 24288 (month_ordinal today - 24288))
                  w0) as (w' & Hloop & _).
      exists w'. unfold mbind, M_bind. rewrite Hloop. reflexivity.
    + unfold main. rewrite Hu, Hb.
      rewrite (bind_ok (lift (get_most_recent_date today)) _ w d w)
        by (unfold lift; rewrite Hd; reflexivity).
      destruct (safe_download_and_unzip (default_url (strftime_Ym d)) w)
        as [[] Hs].
      destruct (download_and_unzip _ w) as [r w']. simpl in Hs. subst r. eauto.
Qed.

(** X3: In January of year 1 the most recent date does not exist: without a
    non-empty [--url], [main] ends with an uncaught [OverflowError]
    before it logs, downloads or creates anything. *)
Theorem main_overflows_in_first_month a today w :
  year today = 1 -> month today = 1 ->
  truthy_url (args_url a) = None ->
  main a today w = (Raise OverflowError, w).
Proof.
  intros Hy Hm Hu.
  assert (Hd : get_most_recent_date today = Raise OverflowError).
  { unfold get_most_recent_date, minus_one_day, replace_day1.
    cbn [year month day]. rewrite Hy, Hm. reflexivity. }
  unfold main. rewrite Hu. destruct (args_backfill a).
  - rewrite (bind_ok (lift (Date.new 2024 1 1)) _ w (Date.Build 2024 1 1) w
               eq_refl).
    apply (bind_raise (lift (get_most_recent_date today))).
    unfold lift. rewrite Hd. reflexivity.
  - apply (bind_raise (lift (get_most_recent_date today))).
    unfold lift. rewrite Hd. reflexivity.
Qed.

(** X4: A backfill started in January 2024 or earlier has no period to
    process: [main] logs the start line and does nothing else. *)
Theorem backfill_before_first_period a today w :
  Date.valid today = true -> (year today <> 1 \/ month today <> 1) ->
  month_ordinal today <= 24288 ->
  truthy_url (args_url a) = None -> args_backfill a = true ->
  exists d, get_most_recent_date today = Ok d
    /\ main a today w
       = (Ok tt,
          World (files w) (dirs w)
                (log w ++ [InfoStartingBackfill (Date.Build 2024 1 1) d])).
Proof.
  intros V Hne Hord Hu Hb.
  destruct (get_most_recent_date_spec today V Hne) as (d & Hd & _).
  exists d. split; [exact Hd|].
  rewrite (main_backfill_eq a today w d Hu Hb Hd).
  rewrite (backfill_periods today d V Hd).
  rewrite seqZ_nil by lia. reflexivity.
Qed.
(** ** The claims on URL resolution and on failed downloads *)

(** C4, as the code has it: the URL the backfill loop builds for the
    token of a month with a four-digit year carries [.csv] exactly once,
    before [.zip], up to April 2024, and not at all after; the default
    mode builds the URL of the month before the current one without the
    suffix, whatever the month, which is the URL of the backfill loop
    whenever today is 1 June 2024 or later; and a non-empty [--url] is
    downloaded as it is, with or without [--backfill]. *)
Theorem legacy_suffix_only_in_backfill_mode d today w backfill u :
  Date.valid d = true -> 1000 <= year d ->
  Date.valid today = true -> (year today <> 1 \/ month today <> 1) ->
  let tok := strftime_Ym d in
  let now := token_of_ordinal (month_ordinal today - 1) in
  backfill_url tok
  = DATA_SOURCE_URL +:+ tok +:+ "-citibike-tripdata"
      +:+ (if month_ordinal d <=? 2024 * 12 + 3 then ".csv" else "")
      +:+ ".zip"
  /\ occurrences ".csv" (backfill_url tok)
     = (if month_ordinal d <=? 2024 * 12 + 3 then 1%nat else 0%nat)
  /\ backfill_step tok w
     = (logger (InfoProcessing tok);; download_and_unzip (backfill_url tok)) w
  /\ main (Args false None) today w
     = download_and_unzip
         (DATA_SOURCE_URL +:+ now +:+ "-citibike-tripdata.zip") w
  /\ occurrences ".csv" (DATA_SOURCE_URL +:+ now +:+ "-citibike-tripdata.zip")
     = 0%nat
  /\ (2024 * 12 + 5 <= month_ordinal today ->
      DATA_SOURCE_URL +:+ now +:+ "-citibike-tripdata.zip" = backfill_url now)
  /\ (str_truthy u = true ->
      main (Args backfill (Some u)) today w = download_and_unzip u w).
Proof.
  intros Vd Hy V Hne tok now.
  assert (Hshape : backfill_url tok
    = DATA_SOURCE_URL +:+ tok +:+ "-citibike-tripdata"
        +:+ (if month_ordinal d <=? 2024 * 12 + 3 then ".csv" else "")
        +:+ ".zip").
  { unfold backfill_url, tok. rewrite legacy_suffix_by_month by assumption.
    reflexivity. }
  split; [exact Hshape|]. split; [|split; [reflexivity|]].
  { rewrite Hshape. unfold tok.
    rewrite occurrences_csv_url by apply strftime_Ym_all_digits.
    destruct (month_ordinal d <=? 2024 * 12 + 3); reflexivity. }
  destruct (get_most_recent_date_spec today V Hne) as (d' & Hd' & Vd' & Ho & _).
  assert (Hnow : strftime_Ym d' = now).
  { unfold now. rewrite <- Ho. apply strftime_Ym_ordinal.
    apply valid_bounds in Vd'. lia. }
  split; [|split; [|split]].
  - unfold main. simpl. unfold mbind, M_bind, lift. rewrite Hd', Hnow.
    reflexivity.
  - rewrite <- Hnow.
    rewrite occurrences_csv_url by apply strftime_Ym_all_digits. reflexivity.
  - intros Hjune. pose proof (ordinal_range _ V) as Rt.
    unfold backfill_url, legacy_suffix, String.leb, now.
    rewrite <- token_202404, token_compare by lia.
    destruct (Z.compare_spec (month_ordinal today - 1) 24291); try lia.
    reflexivity.
  - intros Hu. unfold main. simpl. rewrite Hu. reflexivity.
Qed.

(** When every download of the loop fails before its file is opened, the
    loop changes no file. *)
Lemma backfill_loop_all_fail toks : forall w,
  (forall tok, tok ∈ toks -> download_fails (backfill_url tok)) ->
  files (for_each toks backfill_step w).2 = files w.
Proof.
  induction toks as [|t toks IH]; intros w Hf; [reflexivity|].
  cbn [for_each].
  set (w0 := World (files w) (dirs w) (log w ++ [InfoProcessing t])).
  destruct (download_file_fails (backfill_url t) w0
              (Hf t (list_elem_of_here _ _))) as (Hr & Hfs & _).
  destruct (download_file (backfill_url t) w0) as [r wd] eqn:Hd.
  cbn [fst snd] in Hr, Hfs. subst r.
  assert (Hstep : backfill_step t w
                  = (Ok tt, World (files wd) (dirs wd)
                              (log wd ++ [ErrorFailedDownload]))).
  { unfold backfill_step, download_and_unzip, mbind, M_bind, logger.
    fold w0. rewrite Hd. reflexivity. }
  rewrite (bind_ok _ _ _ _ _ Hstep), IH.
  - exact Hfs.
  - intros tok Htok. apply Hf, list_elem_of_further, Htok.
Qed.

(** C5, as the code has it: [download_file] returns [None] for every
    failure, be it that the request raises, that the status is an error
    status, that the path of the URL has no last component, or that the
    connection breaks while the body is received.  In the first three
    cases no file is created or changed, and a run that returns [None]
    with a file created or changed is one whose connection broke; then
    the chunks received stay in the file at the output path.  In the backfill loop the
    period of a failed download ends with the line "Failed to download
    file" and the loop goes on; and [main] in backfill mode ends
    normally having started on every period from January 2024 to the
    previous month, with no file created when every download fails
    before its file is opened. *)
Theorem failed_download_is_skipped url w date_str rest fin today :
  Date.valid today = true -> (year today <> 1 \/ month today <> 1) ->
  (download_fails url \/ stream_breaks url ->
   (download_file url w).1 = Ok None)
  /\ (download_fails url -> files (download_file url w).2 = files w)
  /\ ((download_file url w).1 = Ok None ->
      files (download_file url w).2 <> files w -> stream_breaks url)
  /\ (forall path r e,
        files w !! DATA_DIR = None ->
        urlparse_path url = Ok path -> str_truthy (basename path) = true ->
        requests_get url = GetResponse r -> ~ (400 <= status_code r < 600) ->
        body_error r = Some e ->
        os_path_join DATA_DIR (basename path) ∉ dirs w ->
        files (download_file url w).2
        = <[os_path_join DATA_DIR (basename path) := concat (body r)]> (files w))
  /\ (download_fails (backfill_url date_str) ->
      exists w1,
        backfill_step date_str w = (Ok tt, w1)
        /\ files w1 = files w
        /\ last (log w1) = Some ErrorFailedDownload
        /\ for_generator (date_str :: rest, fin) backfill_step w
           = for_generator (rest, fin) backfill_step w1)
  /\ (let periods := token_of_ordinal
                       <$> seqZ 24288 (month_ordinal today - 24288) in
      let run := main (Args true None) today w in
      run.1 = Ok tt
      /\ processed (log run.2) = processed (log w) ++ periods
      /\ ((forall tok, tok ∈ periods -> download_fails (backfill_url tok)) ->
          files run.2 = files w)).
Proof.
  intros V Hne.
  split; [|split; [|split; [|split; [|split]]]].
  - intros [Hf|(r & e & Hget & He)]; [apply download_file_fails, Hf|].
    rewrite download_file_spec. cbv zeta.
    destruct (files w !! DATA_DIR); [reflexivity|].
    destruct (urlparse_path url) as [path|e']; [|reflexivity].
    destruct (str_truthy (basename path)); [|reflexivity].
    rewrite Hget.
    destruct ((400 <=? status_code r) && (status_code r <? 600));
      [reflexivity|].
    destruct (decide (_ ∈ _)); [reflexivity|].
    rewrite He. reflexivity.
  - intros Hf. apply download_file_fails, Hf.
  - rewrite download_file_spec. cbv zeta.
    destruct (files w !! DATA_DIR); [intros _ Hc; contradiction|].
    destruct (urlparse_path url) as [path|e']; [|intros _ Hc; contradiction].
    destruct (str_truthy (basename path)); [|intros _ Hc; contradiction].
    destruct (requests_get url) as [e'|r] eqn:Hget;
      [intros _ Hc; contradiction|].
    destruct ((400 <=? status_code r) && (status_code r <? 600));
      [intros _ Hc; contradiction|].
    destruct (decide (_ ∈ _)); [intros _ Hc; contradiction|].
    destruct (body_error r) as [e|] eqn:He; [|discriminate].
    intros _ _. exists r, e. auto.
  - intros path r e Hdir Hpath Hname Hget Hst He Hout.
    rewrite (download_file_response url w path r) by assumption.
    reflexivity.
  - intros Hf.
    set (w0 := World (files w) (dirs w) (log w ++ [InfoProcessing date_str])).
    destruct (download_file_fails (backfill_url date_str) w0 Hf)
      as (Hr & Hfs & _).
    destruct (download_file (backfill_url date_str) w0) as [r wd] eqn:Hd.
    simpl in Hr, Hfs. subst r.
    assert (Hstep : backfill_step date_str w
                    = (Ok tt, World (files wd) (dirs wd)
                                (log wd ++ [ErrorFailedDownload]))).
    { unfold backfill_step, download_and_unzip, mbind, M_bind, logger.
      fold w0. rewrite Hd. reflexivity. }
    eexists. split; [exact Hstep|]. split; [exact Hfs|].
    split; [simpl; apply last_snoc|].
    unfold for_generator. cbn [fst snd for_each].
    rewrite (bind_assoc (backfill_step date_str)
               (fun _ => for_each rest backfill_step)).
    rewrite (bind_ok _ _ _ _ _ Hstep). reflexivity.
  - cbv zeta.
    destruct (get_most_recent_date_spec today V Hne) as (d & Hd & _).
    rewrite (main_backfill_eq (Args true None) today w d eq_refl eq_refl Hd).
    rewrite (backfill_periods today d V Hd).
    unfold for_generator. cbn [fst snd].
    set (periods := token_of_ordinal
                      <$> seqZ 24288 (month_ordinal today - 24288)).
    set (w0 := World _ _ _).
    destruct (backfill_loop_processed periods w0) as (w' & Hloop & Hp).
    pose proof (backfill_loop_all_fail periods w0) as Hall.
    rewrite Hloop in Hall. rewrite (bind_ok _ _ _ _ _ Hloop).
    cbn [fst snd mret M_ret] in *.
    split; [reflexivity|]. split.
    + rewrite Hp. unfold w0. simpl. rewrite processed_snoc, app_nil_r.
      reflexivity.
    + exact Hall.
Qed.

End ScriptFacts.


(** ** Further properties of the dates and the generator *)

(** X5: For a valid [today], [get_most_recent_date] raises [OverflowError]
    exactly in January of year 1; otherwise its result is a valid date
    before [today]; and it is the same for all days of one month. *)
Theorem get_most_recent_date_cases today :
  Date.valid today = true ->
  (get_most_recent_date today = Raise OverflowError
   <-> year today = 1 /\ month today = 1)
  /\ (forall d, get_most_recent_date today = Ok d ->
        Date.valid d = true /\ Date.ltb d today = true
        /\ month_ordinal d = month_ordinal today - 1)
  /\ (forall other, year other = year today -> month other = month today ->
        get_most_recent_date other = get_most_recent_date today).
Proof.
  intros V. pose proof (valid_bounds _ V) as B.
  split; [|split].
  - split.
    + intros Hr.
      destruct (Z.eq_dec (year today) 1) as [Ey|Ey];
        destruct (Z.eq_dec (month today) 1) as [Em|Em]; auto;
        exfalso;
        destruct (get_most_recent_date_spec today V) as (d & Hd & _);
        auto; congruence.
    + intros [Ey Em].
      unfold get_most_recent_date, minus_one_day, replace_day1.
      cbn [year month day]. rewrite Ey, Em. reflexivity.
  - intros d Hd.
    assert (Hne : year today <> 1 \/ month today <> 1).
    { destruct (Z.eq_dec (year today) 1) as [Ey|]; [|auto].
      destruct (Z.eq_dec (month today) 1) as [Em|]; [|auto].
      exfalso. revert Hd.
      unfold get_most_recent_date, minus_one_day, replace_day1.
      cbn [year month day]. rewrite Ey, Em. discriminate. }
    destruct (get_most_recent_date_spec today V Hne) as (d' & Hd' & Vd & Ho & _).
    assert (d' = d) as -> by congruence.
    split; [exact Vd|]. split; [|exact Ho].
    rewrite Date_ltb_leb. pose proof (valid_bounds _ Vd) as Bd.
    rewrite leb_ordinal by lia.
    destruct (Z.ltb_spec (month_ordinal today) (month_ordinal d)); [lia|].
    destruct (Z.ltb_spec (month_ordinal d) (month_ordinal today)); [|lia].
    reflexivity.
  - intros other Ey Em.
    unfold get_most_recent_date, replace_day1. rewrite Ey, Em. reflexivity.
Qed.

Section GeneratorFacts.
Context `{Platform}.

(** X6: Within one calendar month the days decide: the generator yields the
    token of the month when the day of [start_date] is not after the
    day of [end_date], and nothing otherwise. *)
Theorem days_decide_within_one_month start_date end_date :
  Date.valid start_date = true -> Date.valid end_date = true ->
  year start_date = year end_date -> month start_date = month end_date ->
  (generate_date_strings start_date end_date).1
  = if day start_date <=? day end_date then [strftime_Ym start_date] else [].
Proof.
  intros Vs Ve Ey Em.
  pose proof (valid_bounds _ Vs) as Bs. pose proof (valid_bounds _ Ve) as Be.
  assert (Eo : month_ordinal start_date = month_ordinal end_date)
    by (unfold month_ordinal; lia).
  assert (Hleb : Date.leb start_date end_date
                 = (day start_date <=? day end_date)).
  { rewrite leb_ordinal by lia. rewrite Eo, Z.ltb_irrefl. reflexivity. }
  destruct (day start_date <=? day end_date).
  - rewrite generate_date_strings_spec by assumption. cbn [fst].
    rewrite Eo, Z.sub_diag, seqZ_cons, seqZ_nil by lia. simpl.
    rewrite <- Eo, <- strftime_Ym_ordinal by lia. reflexivity.
  - unfold generate_date_strings. rewrite gds_loop_eq, Hleb. reflexivity.
Qed.

(** X7: A range can be cut after any of its months: the tokens from
    [start_date] to [mid_date], followed by the tokens from the first
    day of the next month to [end_date], are the tokens from
    [start_date] to [end_date]. *)
Theorem generate_date_strings_splits start_date mid_date next end_date :
  Date.valid start_date = true -> Date.valid mid_date = true ->
  Date.valid end_date = true ->
  Date.leb start_date mid_date = true ->
  next_month mid_date = Ok next ->
  Date.leb next end_date = true ->
  (generate_date_strings start_date end_date).1
  = (generate_date_strings start_date mid_date).1
    ++ (generate_date_strings next end_date).1.
Proof.
  intros Vs Vm Ve Hsm Hnext Hne.
  destruct (next_month_ordinal _ _ Hnext) as (Ho & Vn & Dn).
  pose proof (leb_ordinal_le _ _ Vs Vm Hsm) as H1.
  pose proof (leb_ordinal_le _ _ Vn Ve Hne) as H2.
  pose proof (valid_bounds _ Vs) as Bs. pose proof (valid_bounds _ Ve) as Be.
  assert (Hse : Date.leb start_date end_date = true).
  { rewrite leb_ordinal by lia.
    destruct (Z.ltb_spec (month_ordinal start_date) (month_ordinal end_date));
      [reflexivity|lia]. }
  rewrite !generate_date_strings_spec by assumption. cbn [fst].
  rewrite <- fmap_app. f_equal.
  replace (month_ordinal end_date - month_ordinal start_date + 1)
    with ((month_ordinal mid_date - month_ordinal start_date + 1)
          + (month_ordinal end_date - month_ordinal next + 1)) by lia.
  rewrite seqZ_app by lia. do 2 f_equal. lia.
Qed.

(** X8: the URL of a period in the backfill loop, by the calendar: for a
    date with a four-digit year, the file name ends in [.csv.zip] up to
    April 2024 and in [.zip] from May 2024 on. *)
Theorem backfill_url_suffix_by_month d :
  Date.valid d = true -> 1000 <= year d ->
  backfill_url (strftime_Ym d)
  = DATA_SOURCE_URL +:+ strftime_Ym d
    +:+ (if month_ordinal d <=? 2024 * 12 + 3
         then "-citibike-tripdata.csv.zip" else "-citibike-tripdata.zip").
Proof.
  intros V Hy. pose proof (valid_bounds _ V) as B.
  assert (Ho : 12000 <= month_ordinal d <= 119999)
    by (unfold month_ordinal; lia).
  unfold backfill_url, legacy_suffix, String.leb.
  rewrite (strftime_Ym_ordinal d) by lia.
  rewrite <- token_202404, token_compare by lia.
  change (2024 * 12 + 3) with 24291.
  destruct (Z.leb_spec (month_ordinal d) 24291) as [Hle|Hgt];
    destruct (Z.compare_spec (month_ordinal d) 24291); try lia; reflexivity.
Qed.

End GeneratorFacts.
(** * Examples and instances *)

Local Open Scope string_scope.

Example rollover_2024_2025 :
  @generate_date_strings Demo.padded (Date.Build 2024 11 15) (Date.Build 2025 2 1)
  = (["202411"; "202412"; "202501"; "202502"], StopIteration).
Proof. vm_compute. reflexivity. Qed.

Example last_month_of_the_calendar :
  @generate_date_strings Demo.padded (Date.Build 9999 11 1) (Date.Build 9999 12 31)
  = (["999911"; "999912"], GenRaise ValueError).
Proof. vm_compute. reflexivity. Qed.

(** Without padding, the token of a year below 1000 is shorter, and its
    comparison with ['202404'] no longer follows the calendar. *)
Example unpadded_short_year_breaks_order :
  @strftime_Ym Demo.unpadded (Date.Build 999 1 1) = "99901"
  /\ String.leb "99901" "202404" = false.
Proof. split; reflexivity. Qed.

Example most_recent_date_in_leap_year :
  get_most_recent_date (Date.Build 2024 3 15) = Ok (Date.Build 2024 2 29).
Proof. reflexivity. Qed.

Example most_recent_date_in_january :
  get_most_recent_date (Date.Build 2025 1 1) = Ok (Date.Build 2024 12 31).
Proof. reflexivity. Qed.

Example most_recent_date_overflows :
  get_most_recent_date (Date.Build 1 1 20) = Raise OverflowError.
Proof. reflexivity. Qed.

(** Member names are cut down to the components that stay below the
    output directory. *)
Example member_paths_stay_below :
  member_path "/d" "/abs.csv" = "/d/abs.csv"
  /\ member_path "/d" "../up.csv" = "/d/up.csv"
  /\ member_path "/d" "./sub//x.csv" = "/d/sub/x.csv"
  /\ member_parents "/d" "./sub//x.csv" = ["/d"; "/d/sub"]
  /\ member_path "/d" "sub/" = "/d/sub"
  /\ member_path "/d" ".." = "/d".
Proof. repeat split. Qed.

(** An archive that holds a member named like itself: the member is
    written over the archive, the copy meets the end of the file, and
    [unzip_file] returns [False] with the archive emptied. *)
Example archive_written_over_itself :
  let r := @unzip_file Demo.env "/app/scripts/../raw_data/data.zip"
             (World {[ "/app/scripts/../raw_data/data.zip"
                       := [Byte.x50; Byte.x4b; Byte.x04] ]} ∅ []) in
  r.1 = Ok false
  /\ files r.2 !! "/app/scripts/../raw_data/data.zip" = Some []
  /\ files r.2 !! "/app/scripts/../raw_data/late.csv" = None
  /\ last (log r.2) = Some (ErrorExtracting OtherError).
Proof. vm_compute. repeat split. Qed.

Example damaged_archive_run :
  let r := @unzip_file Demo.env "/app/scripts/../raw_data/data.zip"
             Demo.world_with_damaged_archive in
  r.1 = Ok false
  /\ files r.2 !! "/app/scripts/../raw_data/a.csv" = Some [Byte.x61]
  /\ files r.2 !! "/app/scripts/../raw_data/data.zip"
     = Some [Byte.x50; Byte.x4b; Byte.x02].
Proof. vm_compute. auto. Qed.

Lemma generate_date_strings_enumerates_months_witness :
  (@generate_date_strings Demo.padded
     (Date.Build 2024 11 15) (Date.Build 2025 2 1)).1
  = @token_of_ordinal Demo.padded <$> seqZ 24298 4
  /\ NoDup (@generate_date_strings Demo.padded
              (Date.Build 2024 11 15) (Date.Build 2025 2 1)).1
  /\ @generate_date_strings Demo.padded
       (Date.Build 2024 11 1) (Date.Build 2025 2 1)
     = @generate_date_strings Demo.padded
         (Date.Build 2024 11 15) (Date.Build 2025 2 1).
Proof.
  pose proof (@generate_date_strings_enumerates_months Demo.padded
                (Date.Build 2024 11 15) (Date.Build 2025 2 1)
                eq_refl eq_refl eq_refl) as (_ & Hseq & _ & Hnd & Hday & _).
  exact (conj Hseq (conj Hnd Hday)).
Defined.

Lemma generate_date_strings_empty_when_start_after_end_witness :
  @generate_date_strings Demo.padded (Date.Build 2024 1 15) (Date.Build 2024 1 10)
  = ([], StopIteration).
Proof.
  apply (@generate_date_strings_empty_when_start_after_end Demo.padded).
  reflexivity.
Defined.

Lemma legacy_cutoff_is_chronological_witness :
  exists i1 i2,
    "202404" = @token_of_ordinal Demo.padded i1
    /\ "202405" = @token_of_ordinal Demo.padded i2
    /\ 24288 <= i1 <= 24293 /\ 24288 <= i2 <= 24293
    /\ String.length "202404" = 6%nat
    /\ String.compare "202404" "202405" = Z.compare i1 i2
    /\ (String.leb "202404" "202404" = true <-> i1 <= 2024 * 12 + 3)
    /\ (legacy_suffix "202404" = ".csv" <-> i1 <= 2024 * 12 + 3).
Proof.
  apply (@legacy_cutoff_is_chronological Demo.padded
           (Date.Build 2024 1 1) (Date.Build 2024 6 30) "202404" "202405").
  - reflexivity.
  - reflexivity.
  - simpl. lia.
  - apply (bool_decide_unpack _). vm_compute. exact I.
  - apply (bool_decide_unpack _). vm_compute. exact I.
Defined.

Lemma most_recent_period_is_previous_month_witness :
  exists d, get_most_recent_date (Date.Build 2025 3 15) = Ok d
    /\ @strftime_Ym Demo.padded d = "202502".
Proof.
  destruct (@most_recent_period_is_previous_month Demo.env
              (Date.Build 2025 3 15) Demo.empty_world eq_refl)
    as (d & Hd & _ & _ & _ & _ & _ & Htok).
  - left. simpl. lia.
  - exists d. split; [exact Hd|]. apply Htok. reflexivity.
Defined.

Lemma unzip_deletes_archive_only_after_full_extraction_witness :
  let r := @unzip_file Demo.env "/app/scripts/../raw_data/data.zip"
             Demo.world_with_damaged_archive in
  files r.2 !! "/app/scripts/../raw_data/data.zip" = None <-> r.1 = Ok true.
Proof.
  pose proof (@unzip_deletes_archive_only_after_full_extraction Demo.env
                "/app/scripts/../raw_data/data.zip"
                Demo.world_with_damaged_archive
                [Byte.x50; Byte.x4b; Byte.x02] eq_refl) as (_ & Hiff & _).
  exact Hiff.
Defined.

(** The claim of C6 fails on the damaged archive of the example
    environment: extraction stops at the second member, and the first
    one is in the output directory. *)
Lemma failed_extraction_leaves_entries :
  ~ @failed_extraction_leaves_no_entries Demo.env
      "/app/scripts/../raw_data/data.zip" Demo.world_with_damaged_archive.
Proof.
  intros Hclaim. destruct (Hclaim eq_refl) as [_ Hno].
  specialize (Hno "/app/scripts/../raw_data/a.csv" ltac:(discriminate)).
  vm_compute in Hno. discriminate Hno.
Qed.

Lemma failed_extraction_keeps_archive_and_earlier_entries_witness :
  let w' := (@unzip_file Demo.env "/app/scripts/../raw_data/data.zip"
               Demo.world_with_damaged_archive).2 in
  is_Some (files w' !! "/app/scripts/../raw_data/data.zip")
  /\ exists e pre m post,
       log w' = [InfoExtracting "/app/scripts/../raw_data/data.zip"
                   "/app/scripts/../raw_data";
                 @extraction_error_record e]
       /\ Demo.decode [Byte.x50; Byte.x4b; Byte.x02] = Some (pre ++ m :: post)%list
       /\ forall m', m' ∈ pre -> m_is_dir m' = false ->
            is_Some (files w' !! @target Demo.env m').
Proof.
  destruct (@failed_extraction_keeps_archive_and_earlier_entries Demo.env
              "/app/scripts/../raw_data/data.zip"
              Demo.world_with_damaged_archive
              [Byte.x50; Byte.x4b; Byte.x02] eq_refl eq_refl)
    as (Harchive & _ & _ & _ & Hfail).
  split; [exact Harchive|].
  destruct (Hfail _ eq_refl eq_refl)
    as (e & pre & m & post & _ & Hlog & Hms & _ & _ & Hpre).
  exists e, pre, m, post. split; [exact Hlog|]. split; [|exact Hpre].
  rewrite <- Hms. reflexivity.
Defined.

Lemma broken_stream_leaves_partial_file_witness :
  @download_file Demo.env "https://example.org/broken.zip" Demo.empty_world
  = (Ok None,
     World (<["/app/scripts/../raw_data/broken.zip" := [Byte.x50; Byte.x4b]]> ∅)
           ({["/app/scripts/../raw_data"]} ∪ ∅)
           [InfoDownloading "https://example.org/broken.zip"
              "/app/scripts/../raw_data/broken.zip";
            ErrorDownloading RequestException]).
Proof.
  refine (proj1 (@broken_stream_leaves_partial_file Demo.env
                   "https://example.org/broken.zip" Demo.empty_world
                   "/broken.zip"
                   (Response 200 [Demo.pk] (Some RequestException))
                   RequestException eq_refl eq_refl eq_refl eq_refl _ eq_refl _)).
  - simpl. lia.
  - apply (bool_decide_unpack _). vm_compute. exact I.
Defined.

Lemma same_basename_same_local_file_witness :
  let w1 := (@download_file Demo.env "https://example.org/a/data.zip"
               Demo.empty_world).2 in
  let w2 := (@download_file Demo.env "https://example.org/b/data.zip" w1).2 in
  files w1 = <["/app/scripts/../raw_data/data.zip" := [Byte.x50; Byte.x4b; Byte.x01]]> ∅
  /\ files w2 = <["/app/scripts/../raw_data/data.zip" := [Byte.x50; Byte.x4b; Byte.x02]]> ∅.
Proof.
  pose proof (@same_basename_same_local_file Demo.env
                "https://example.org/a/data.zip"
                "https://example.org/b/data.zip" Demo.empty_world
                "/a/data.zip" "/b/data.zip"
                (Response 200 [Demo.pk; [Byte.x01]] None)
                (Response 200 [Demo.pk; []; [Byte.x02]] None)
                eq_refl eq_refl eq_refl eq_refl eq_refl eq_refl eq_refl)
    as Hthm.
  destruct Hthm as (_ & H1 & _ & H2 & _).
  - simpl. lia.
  - simpl. lia.
  - reflexivity.
  - reflexivity.
  - apply (bool_decide_unpack _). vm_compute. exact I.
  - exact (conj H1 H2).
Defined.

(** The claim of C5 fails on the URL of the example network whose
    stream breaks: [download_file] returns [None], and the file with
    the first chunk is there. *)
Lemma broken_stream_creates_a_file :
  ~ @failed_download_creates_no_file Demo.env
      "https://example.org/broken.zip" Demo.empty_world.
Proof.
  intros Hclaim. specialize (Hclaim eq_refl).
  apply (f_equal (fun fs => fs !! "/app/scripts/../raw_data/broken.zip"))
    in Hclaim.
  vm_compute in Hclaim. discriminate Hclaim.
Qed.

Lemma failed_download_is_skipped_witness :
  (exists w1,
     @backfill_step Demo.env "202401" Demo.empty_world = (Ok tt, w1)
     /\ files w1 = ∅
     /\ last (log w1) = Some ErrorFailedDownload
     /\ @for_generator (["202401"; "202402"], StopIteration)
          (@backfill_step Demo.env) Demo.empty_world
        = @for_generator (["202402"], StopIteration)
            (@backfill_step Demo.env) w1)
  /\ processed (log (@main Demo.env (Args true None) (Date.Build 2024 5 15)
                       Demo.empty_world).2)
     = ["202401"; "202402"; "202403"; "202404"].
Proof.
  destruct (@failed_download_is_skipped Demo.env
              (backfill_url "202401") Demo.empty_world "202401" ["202402"]
              StopIteration (Date.Build 2024 5 15) eq_refl)
    as (_ & _ & _ & _ & Hstep & _ & Hmain & _).
  - left. simpl. lia.
  - split; [|exact Hmain].
    apply Hstep. apply (@NetworkError Demo.env _ RequestException).
    reflexivity.
Defined.

(** The claim of C4 fails in the default mode on 2024-05-15: the token
    is 202404, which is not after the cutoff, and the URL that is
    downloaded carries no [.csv]. *)
Lemma default_mode_leaves_out_legacy_suffix :
  ~ @default_mode_appends_legacy_suffix Demo.env (Date.Build 2024 5 15)
      Demo.empty_world.
Proof.
  intros Hclaim. specialize (Hclaim (Date.Build 2024 4 30) eq_refl eq_refl).
  apply (f_equal (fun r => log r.2)) in Hclaim.
  vm_compute in Hclaim. discriminate Hclaim.
Qed.

Lemma legacy_suffix_only_in_backfill_mode_witness :
  backfill_url "202403"
  = "https://s3.amazonaws.com/tripdata/202403-citibike-tripdata.csv.zip"
  /\ occurrences ".csv" (backfill_url "202403") = 1%nat
  /\ @main Demo.env (Args false None) (Date.Build 2025 3 15) Demo.empty_world
     = @download_and_unzip Demo.env
         "https://s3.amazonaws.com/tripdata/202502-citibike-tripdata.zip"
         Demo.empty_world
  /\ @main Demo.env (Args true (Some "https://example.org/a/data.zip"))
       (Date.Build 2025 3 15) Demo.empty_world
     = @download_and_unzip Demo.env "https://example.org/a/data.zip"
         Demo.empty_world.
Proof.
  destruct (@legacy_suffix_only_in_backfill_mode Demo.env
              (Date.Build 2024 3 1) (Date.Build 2025 3 15) Demo.empty_world
              true "https://example.org/a/data.zip" eq_refl)
    as (Hshape & Hcount & _ & Hdefault & _ & _ & Hurl).
  - simpl. lia.
  - reflexivity.
  - left. simpl. lia.
  - split; [exact Hshape|]. split; [exact Hcount|].
    split; [exact Hdefault|]. exact (Hurl eq_refl).
Defined.

(** ** Instances of the further properties *)

Lemma backfill_processes_every_period_witness :
  exists w', @main Demo.env (Args true None) (Date.Build 2024 5 15)
               Demo.empty_world = (Ok tt, w')
    /\ processed (log w') = ["202401"; "202402"; "202403"; "202404"].
Proof.
  destruct (@backfill_processes_every_period Demo.env (Date.Build 2024 5 15)
              Demo.empty_world eq_refl) as (w' & Hrun & Hp).
  - left. simpl. lia.
  - exists w'. split; [exact Hrun|]. rewrite Hp. vm_compute. reflexivity.
Defined.

Lemma main_returns_normally_witness :
  exists w', @main Demo.env (Args false None) (Date.Build 2025 3 15)
               Demo.empty_world = (Ok tt, w').
Proof.
  apply (@main_returns_normally Demo.env (Args false None)
           (Date.Build 2025 3 15) Demo.empty_world eq_refl).
  intros _. left. simpl. lia.
Defined.

Lemma main_overflows_in_first_month_witness :
  @main Demo.env (Args true (Some "")) (Date.Build 1 1 20) Demo.empty_world
  = (Raise OverflowError, Demo.empty_world).
Proof.
  apply (@main_overflows_in_first_month Demo.env (Args true (Some ""))
           (Date.Build 1 1 20) Demo.empty_world); reflexivity.
Defined.

Lemma backfill_before_first_period_witness :
  exists d, get_most_recent_date (Date.Build 2024 1 20) = Ok d
    /\ @main Demo.env (Args true None) (Date.Build 2024 1 20) Demo.empty_world
       = (Ok tt,
          World ∅ ∅ [InfoStartingBackfill (Date.Build 2024 1 1) d]).
Proof.
  apply (@backfill_before_first_period Demo.env (Args true None)
           (Date.Build 2024 1 20) Demo.empty_world eq_refl).
  - left. simpl. lia.
  - unfold month_ordinal. simpl. lia.
  - reflexivity.
  - reflexivity.
Defined.

Lemma get_most_recent_date_cases_witness :
  Date.valid (Date.Build 2025 2 28) = true
  /\ Date.ltb (Date.Build 2025 2 28) (Date.Build 2025 3 15) = true
  /\ month_ordinal (Date.Build 2025 2 28)
     = month_ordinal (Date.Build 2025 3 15) - 1.
Proof.
  exact (proj1 (proj2 (get_most_recent_date_cases (Date.Build 2025 3 15)
                         eq_refl))
           (Date.Build 2025 2 28) eq_refl).
Defined.

Lemma days_decide_within_one_month_witness :
  (@generate_date_strings Demo.padded
     (Date.Build 2024 1 15) (Date.Build 2024 1 10)).1 = []
  /\ (@generate_date_strings Demo.padded
        (Date.Build 2024 1 10) (Date.Build 2024 1 15)).1 = ["202401"].
Proof.
  split.
  - exact (@days_decide_within_one_month Demo.padded
             (Date.Build 2024 1 15) (Date.Build 2024 1 10)
             eq_refl eq_refl eq_refl eq_refl).
  - exact (@days_decide_within_one_month Demo.padded
             (Date.Build 2024 1 10) (Date.Build 2024 1 15)
             eq_refl eq_refl eq_refl eq_refl).
Defined.

Lemma generate_date_strings_splits_witness :
  (@generate_date_strings Demo.padded
     (Date.Build 2024 11 15) (Date.Build 2025 2 1)).1
  = ((@generate_date_strings Demo.padded
        (Date.Build 2024 11 15) (Date.Build 2024 12 31)).1
     ++ (@generate_date_strings Demo.padded
           (Date.Build 2025 1 1) (Date.Build 2025 2 1)).1)%list.
Proof.
  apply (@generate_date_strings_splits Demo.padded
           (Date.Build 2024 11 15) (Date.Build 2024 12 31)
           (Date.Build 2025 1 1) (Date.Build 2025 2 1)); reflexivity.
Defined.

Lemma backfill_url_suffix_by_month_witness :
  backfill_url (@strftime_Ym Demo.padded (Date.Build 2024 4 30))
  = "https://s3.amazonaws.com/tripdata/202404-citibike-tripdata.csv.zip"
  /\ backfill_url (@strftime_Ym Demo.padded (Date.Build 2024 5 1))
     = "https://s3.amazonaws.com/tripdata/202405-citibike-tripdata.zip".
Proof.
  split.
  - refine (@backfill_url_suffix_by_month Demo.padded (Date.Build 2024 4 30)
              eq_refl _). simpl. lia.
  - refine (@backfill_url_suffix_by_month Demo.padded (Date.Build 2024 5 1)
              eq_refl _). simpl. lia.
Defined.

Lemma basename_os_path_join_witness :
  basename (os_path_join "/app/scripts/../raw_data" "data.zip") = "data.zip".
Proof. apply basename_os_path_join. reflexivity. Defined.

Lemma download_file_success_means_complete_witness :
  exists path r,
    Demo.url_path "https://example.org/a/data.zip" = Ok path
    /\ Demo.network "https://example.org/a/data.zip" = GetResponse r
    /\ ~ (400 <= status_code r < 600) /\ body_error r = None
    /\ "/app/scripts/../raw_data/data.zip"
       = os_path_join (@DATA_DIR Demo.env) (basename path)
    /\ str_truthy "/app/scripts/../raw_data/data.zip" = true
    /\ files (@download_file Demo.env "https://example.org/a/data.zip"
                Demo.empty_world).2
       = <["/app/scripts/../raw_data/data.zip" := concat (body r)]> ∅.
Proof.
  apply (@download_file_success_means_complete Demo.env
           "https://example.org/a/data.zip" Demo.empty_world
           "/app/scripts/../raw_data/data.zip").
  vm_compute. reflexivity.
Defined.

Lemma download_file_touches_one_path_witness :
  is_Some (files (@download_file Demo.env "https://example.org/missing.zip"
                    Demo.world_with_damaged_archive).2
           !! "/app/scripts/../raw_data/data.zip").
Proof.
  apply (proj1 (proj2 (@download_file_touches_one_path Demo.env
                         "https://example.org/missing.zip"
                         Demo.world_with_damaged_archive))).
  exists [Byte.x50; Byte.x4b; Byte.x02]. reflexivity.
Defined.

(** The members of the example archive with a directory can be
    extracted wherever no file or directory of the world is in the
    way. *)
Lemma year_members_extractable zip_path w :
  files w !! "/app/scripts/../raw_data" = None ->
  files w !! "/app/scripts/../raw_data/2024" = None ->
  "/app/scripts/../raw_data/2024/jan.csv" ∉ dirs w ->
  "/app/scripts/../raw_data/feb.csv" ∉ dirs w ->
  zip_path <> "/app/scripts/../raw_data" ->
  zip_path <> "/app/scripts/../raw_data/2024" ->
  zip_path <> "/app/scripts/../raw_data/2024/jan.csv" ->
  zip_path <> "/app/scripts/../raw_data/feb.csv" ->
  @extractable Demo.env zip_path Demo.year_members w.
Proof.
  intros Hdir Hsub Hjan Hfeb Hz1 Hz2 Hz3 Hz4.
  unfold extractable, Demo.year_members.
  repeat (apply Forall_cons; split); try apply Forall_nil;
    repeat split; try reflexivity; try discriminate;
    repeat (apply Forall_cons; split); try apply Forall_nil;
    repeat split; try discriminate; try assumption;
    try (intros E; symmetry in E; contradiction).
  all: apply (bool_decide_unpack _); vm_compute; exact I.
Qed.

Lemma unzip_file_succeeds_witness :
  let w' := (@unzip_file Demo.env "/app/scripts/../raw_data/year.zip"
               (World {[ "/app/scripts/../raw_data/year.zip"
                         := [Byte.x50; Byte.x4b; Byte.x03] ]} ∅ [])).2 in
  files w' !! "/app/scripts/../raw_data/year.zip" = None
  /\ is_Some (files w' !! "/app/scripts/../raw_data/2024/jan.csv")
  /\ is_Some (files w' !! "/app/scripts/../raw_data/feb.csv")
  /\ "/app/scripts/../raw_data/2024" ∈ dirs w'.
Proof.
  destruct (@unzip_file_succeeds Demo.env "/app/scripts/../raw_data/year.zip"
              (World {[ "/app/scripts/../raw_data/year.zip"
                        := [Byte.x50; Byte.x4b; Byte.x03] ]} ∅ [])
              [Byte.x50; Byte.x4b; Byte.x03] Demo.year_members)
    as (_ & _ & Hgone & Hfiles & Hdirs & _).
  - reflexivity.
  - reflexivity.
  - reflexivity.
  - apply year_members_extractable; try reflexivity; try discriminate;
      apply (bool_decide_unpack _); vm_compute; exact I.
  - split; [exact Hgone|]. split; [|split].
    + apply (Hfiles (Member "2024/jan.csv" (Extracted [Byte.x31])));
        [|reflexivity].
      apply list_elem_of_further, list_elem_of_here.
    + apply (Hfiles (Member "/../feb.csv" (Extracted [Byte.x32])));
        [|reflexivity].
      do 2 apply list_elem_of_further. apply list_elem_of_here.
    + apply (Hdirs (Member "2024/" (Extracted []))); [|reflexivity].
      apply list_elem_of_here.
Defined.

Lemma unzip_file_missing_archive_witness :
  (@unzip_file Demo.env "/app/scripts/../raw_data/none.zip"
     Demo.empty_world).1 = Ok false
  /\ files (@unzip_file Demo.env "/app/scripts/../raw_data/none.zip"
              Demo.empty_world).2 = ∅.
Proof.
  destruct (@unzip_file_missing_archive Demo.env
              "/app/scripts/../raw_data/none.zip" Demo.empty_world eq_refl)
    as (Hr & Hf & _).
  exact (conj Hr Hf).
Defined.

Lemma download_and_unzip_succeeds_witness :
  let w' := (@download_and_unzip Demo.env "https://example.org/c/year.zip"
               Demo.empty_world).2 in
  last (log w') = Some InfoCompleted
  /\ files w' !! "/app/scripts/../raw_data/year.zip" = None
  /\ is_Some (files w' !! "/app/scripts/../raw_data/2024/jan.csv")
  /\ is_Some (files w' !! "/app/scripts/../raw_data/feb.csv")
  /\ "/app/scripts/../raw_data/2024" ∈ dirs w'.
Proof.
  destruct (@download_and_unzip_succeeds Demo.env
              "https://example.org/c/year.zip" Demo.empty_world "/c/year.zip"
              (Response 200 [Demo.pk; [Byte.x03]] None)
              Demo.year_members
              eq_refl eq_refl eq_refl eq_refl)
    as (_ & Hlast & Hgone & Hfiles & Hdirs & _).
  - simpl. lia.
  - reflexivity.
  - reflexivity.
  - apply (bool_decide_unpack _). vm_compute. exact I.
  - apply year_members_extractable; try reflexivity; try discriminate;
      apply (bool_decide_unpack _); vm_compute; exact I.
  - split; [exact Hlast|]. split; [exact Hgone|]. split; [|split].
    + apply (Hfiles (Member "2024/jan.csv" (Extracted [Byte.x31])));
        [|reflexivity].
      apply list_elem_of_further, list_elem_of_here.
    + apply (Hfiles (Member "/../feb.csv" (Extracted [Byte.x32])));
        [|reflexivity].
      do 2 apply list_elem_of_further. apply list_elem_of_here.
    + apply (Hdirs (Member "2024/" (Extracted []))); [|reflexivity].
      apply list_elem_of_here.
Defined.

Lemma download_and_unzip_twice_witness :
  let w1 := (@download_and_unzip Demo.env "https://example.org/c/year.zip"
               Demo.empty_world).2 in
  let w2 := (@download_and_unzip Demo.env "https://example.org/c/year.zip"
               w1).2 in
  last (log w2) = Some InfoCompleted
  /\ files w2 = files w1 /\ dirs w2 = dirs w1.
Proof.
  destruct (@download_and_unzip_twice Demo.env
              "https://example.org/c/year.zip" Demo.empty_world "/c/year.zip"
              (Response 200 [Demo.pk; [Byte.x03]] None)
              Demo.year_members
              eq_refl eq_refl eq_refl eq_refl)
    as (_ & Hlast & _ & Hfiles & Hdirs).
  - simpl. lia.
  - reflexivity.
  - reflexivity.
  - apply (bool_decide_unpack _). vm_compute. exact I.
  - apply year_members_extractable; try reflexivity; try discriminate;
      apply (bool_decide_unpack _); vm_compute; exact I.
  - exact (conj Hlast (conj Hfiles Hdirs)).
Defined.

Lemma download_and_unzip_removes_only_its_archive_witness :
  exists path,
    Demo.url_path "https://example.org/a/data.zip" = Ok path
    /\ "/app/scripts/../raw_data/data.zip"
       = os_path_join (@DATA_DIR Demo.env) (basename path).
Proof.
  apply (@download_and_unzip_removes_only_its_archive Demo.env
           "https://example.org/a/data.zip"
           (World {[ "/app/scripts/../raw_data/data.zip" := [Byte.x00] ]} ∅ [])
           "/app/scripts/../raw_data/data.zip").
  - exists [Byte.x00]. reflexivity.
  - vm_compute. reflexivity.
Defined.

Lemma download_and_unzip_reports_outcome_witness :
  exists w', @download_and_unzip Demo.env "https://example.org/missing.zip"
               Demo.empty_world = (Ok tt, w').
Proof.
  destruct (@download_and_unzip_reports_outcome Demo.env
              "https://example.org/missing.zip" Demo.empty_world)
    as (w' & Hrun & _).
  exists w'. exact Hrun.
Defined.

Lemma download_and_unzip_keeps_partial_file_witness :
  @download_and_unzip Demo.env "https://example.org/broken.zip"
    Demo.empty_world
  = (Ok tt,
     World (<["/app/scripts/../raw_data/broken.zip" := [Byte.x50; Byte.x4b]]> ∅)
           ({["/app/scripts/../raw_data"]} ∪ ∅)
           [InfoDownloading "https://example.org/broken.zip"
              "/app/scripts/../raw_data/broken.zip";
            ErrorDownloading RequestException;
            ErrorFailedDownload]).
Proof.
  refine (@download_and_unzip_keeps_partial_file Demo.env
            "https://example.org/broken.zip" Demo.empty_world "/broken.zip"
            (Response 200 [Demo.pk] (Some RequestException)) RequestException
            eq_refl eq_refl eq_refl eq_refl _ eq_refl _).
  - simpl. lia.
  - apply (bool_decide_unpack _). vm_compute. exact I.
Defined.

Lemma download_and_unzip_keeps_invalid_archive_witness :
  @download_and_unzip Demo.env_with_error_page
    "https://s3.amazonaws.com/tripdata/202404-citibike-tripdata.zip"
    Demo.empty_world
  = (Ok tt,
     World (<["/app/scripts/../raw_data/202404-citibike-tripdata.zip"
              := [Byte.x3c; Byte.x68; Byte.x3e]]> ∅)
           ({["/app/scripts/../raw_data"]} ∪ ∅)
           [InfoDownloading
              "https://s3.amazonaws.com/tripdata/202404-citibike-tripdata.zip"
              "/app/scripts/../raw_data/202404-citibike-tripdata.zip";
            InfoDownloaded "202404-citibike-tripdata.zip";
            InfoExtracting "/app/scripts/../raw_data/202404-citibike-tripdata.zip"
              "/app/scripts/../raw_data";
            ErrorInvalidZip BadZipFile;
            ErrorFailedUnzip]).
Proof.
  refine (@download_and_unzip_keeps_invalid_archive Demo.env_with_error_page
            "https://s3.amazonaws.com/tripdata/202404-citibike-tripdata.zip"
            Demo.empty_world "/tripdata/202404-citibike-tripdata.zip"
            (Response 200 [[Byte.x3c; Byte.x68]; [Byte.x3e]] None)
            eq_refl eq_refl eq_refl eq_refl _ eq_refl eq_refl _).
  - simpl. lia.
  - apply (bool_decide_unpack _). vm_compute. exact I.
Defined.

Lemma output_directory_taken_by_a_file_witness :
  @download_and_unzip Demo.env "https://example.org/a/data.zip"
    (World {[ "/app/scripts/../raw_data" := [] ]} ∅ [])
  = (Ok tt,
     World {[ "/app/scripts/../raw_data" := [] ]} ∅
           [ErrorUnexpectedDownload OSError; ErrorFailedDownload]).
Proof.
  exact (proj2 (proj2 (@output_directory_taken_by_a_file Demo.env
                         "https://example.org/a/data.zip"
                         "/app/scripts/../raw_data/data.zip"
                         (World {[ "/app/scripts/../raw_data" := [] ]} ∅ [])
                         [] eq_refl))).
Defined.
